(** * ScatterChart/Scatter.tsx: the scatter layer of the charts package

    A shallow embedding of the [Scatter] component: the two [useMemo]
    callbacks ([highlightScope], [cleanData]), the JSX it returns, and the
    hook state that React keeps for one instance of the component between
    render passes.

    JavaScript numbers are IEEE binary64, embedded as primitive floats;
    JavaScript objects are references into a heap, so that [Object.is] on
    the dependency arrays is reference identity and not a comparison of
    contents. *)

From Stdlib Require Import Floats.
From stdpp Require Import gmap strings list pretty sorting.

(** ** Numbers *)

Abbreviation number := float.

(** The relational operators of the source on numbers. [x >= m] is
    [m <= x], false as soon as one side is NaN. *)
Definition js_le (a b : number) : bool := PrimFloat.leb a b.
Definition js_ge (a b : number) : bool := PrimFloat.leb b a.
Definition js_lt (a b : number) : bool := PrimFloat.ltb a b.

(** [Object.is] on numbers: NaN is NaN, and +0 is not -0. This is Leibniz
    equality on binary64 values. *)
Definition Object_is_number (a b : number) : bool := PrimFloat.Leibniz.eqb a b.

Module Math.

Definition is_neg_zero (n : number) : bool := is_zero n && get_sign n.
Definition is_pos_zero (n : number) : bool := is_zero n && negb (get_sign n).

(** [Math.min(...values)]: starts from +Infinity, answers NaN as soon as a
    value is NaN, prefers -0 over +0. *)
Fixpoint min_from (lowest : number) (values : list number) : number :=
  match values with
  | [] => lowest
  | n :: rest =>
      if is_nan n then nan
      else if is_neg_zero n && is_pos_zero lowest then min_from n rest
      else if js_lt n lowest then min_from n rest
      else min_from lowest rest
  end.

Definition min (values : list number) : number := min_from infinity values.

(** [Math.max(...values)]: starts from -Infinity, answers NaN as soon as a
    value is NaN, prefers +0 over -0. *)
Fixpoint max_from (highest : number) (values : list number) : number :=
  match values with
  | [] => highest
  | n :: rest =>
      if is_nan n then nan
      else if is_pos_zero n && is_neg_zero highest then max_from n rest
      else if js_lt highest n then max_from n rest
      else max_from highest rest
  end.

Definition max (values : list number) : number := max_from neg_infinity values.

End Math.

(** ** The order of numbers

    Where a binary64 value stands in the order of [<=]: nothing for NaN;
    otherwise a triple compared from left to right, whose first component
    tells -Infinity, the negative numbers, the two zeros, the positive
    numbers and +Infinity apart, and whose two others order the finite
    numbers of one sign by exponent and mantissa. *)
Definition SFrank (f : spec_float) : option (Z * Z * Z) :=
  match f with
  | S754_nan => None
  | S754_infinity true => Some (-2, 0, 0)%Z
  | S754_finite true m e => Some (-1, - e, - Zpos m)%Z
  | S754_zero _ => Some (0, 0, 0)%Z
  | S754_finite false m e => Some (1, e, Zpos m)%Z
  | S754_infinity false => Some (2, 0, 0)%Z
  end.

Definition rank (n : number) : option (Z * Z * Z) := SFrank (Prim2SF n).

Definition lex_le (a b : Z * Z * Z) : Prop :=
  (a.1.1 < b.1.1 \/ (a.1.1 = b.1.1 /\ (a.1.2 < b.1.2 \/ (a.1.2 = b.1.2 /\ a.2 <= b.2))))%Z.

Definition lex_lt (a b : Z * Z * Z) : Prop :=
  (a.1.1 < b.1.1 \/ (a.1.1 = b.1.1 /\ (a.1.2 < b.1.2 \/ (a.1.2 = b.1.2 /\ a.2 < b.2))))%Z.

(** ** Identifiers and series items *)

(** [string | number], the type of a series id and of a point id. *)
Inductive Id :=
| IdString (s : string)
| IdNumber (n : number).

Definition Object_is_Id (a b : Id) : bool :=
  match a, b with
  | IdString s, IdString t => bool_decide (s = t)
  | IdNumber n, IdNumber m => Object_is_number n m
  | _, _ => false
  end.

(** A point of [series.data]. *)
Record ScatterValueType := {
  sv_x : number;
  sv_y : number;
  sv_id : Id;
}.

(** [{ type: 'scatter', seriesId, dataIndex }]: the identifier of one point,
    built as [pointCtx] in the loop and again in the click handler. *)
Record ScatterItemIdentifier := {
  item_type : string;
  seriesId : Id;
  dataIndex : nat;
}.

(** ** Highlight scope *)

(** The value held by a property of a highlight scope: one of the option
    names, or [undefined] when a partial scope carries the key with no
    value. *)
Inductive ScopeOption :=
| undefined
| opt (name : string).

Record HighlightScope := {
  highlighted : ScopeOption;
  faded : ScopeOption;
}.

(** [Partial<HighlightScope>]: each own property is present or not. *)
Record PartialHighlightScope := {
  own_highlighted : option ScopeOption;
  own_faded : option ScopeOption;
}.

(** [{ highlighted: 'item', faded: 'global', ...partial }]; spreading
    [undefined] copies nothing. *)
Definition spread_highlightScope (partial : option PartialHighlightScope) : HighlightScope :=
  {| highlighted := default (opt "item") (partial ≫= own_highlighted);
     faded := default (opt "global") (partial ≫= own_faded) |}.

(** ** Objects *)

(** The identity of a JavaScript object. *)
Definition loc := nat.

Definition Object_is_loc (a b : loc) : bool := Nat.eqb a b.

(** [Object.is] on a value that is an object, or [null] / [undefined]. *)
Definition Object_is_nullable (a b : option loc) : bool :=
  match a, b with
  | None, None => true
  | Some l, Some m => Object_is_loc l m
  | _, _ => false
  end.

(** ** What the component imports

    [Scatter.tsx] imports its collaborators from sibling modules; they are
    taken as parameters. [D3Scale] is the state of a scale object,
    [ItemData] the item the interaction context points at, [HookEnv] what
    [useInteractionItemProps] reads from React when it is called, [Event] a
    mouse event and [Effect] what running an event handler does. *)
Class ImportedTypes := {
  D3Scale : Type;
  ItemData : Type;
  HookEnv : Type;
  Event : Type;
  Effect : Type;
}.

Section Props.
Context {T : ImportedTypes}.

(** The value of one JSX attribute. *)
Inductive PropValue :=
| PNumber (n : number)
| PString (s : string)
| PUndefined
| PHandler (h : Event -> Effect).

(** [onItemClick?: (event, scatterItemIdentifier) => void] *)
Definition ItemClickCallback : Type := Event -> ScatterItemIdentifier -> Effect.

End Props.

Class Imports {T : ImportedTypes} := {
  (** [../hooks/useScale] *)
  getValueToPositionMapper : D3Scale -> number -> number;
  (** [scale.range()] *)
  range : D3Scale -> list number;
  (** [../hooks/useInteractionItemProps] *)
  getIsHighlighted : option ItemData -> ScatterItemIdentifier -> HighlightScope -> bool;
  getIsFaded : option ItemData -> ScatterItemIdentifier -> HighlightScope -> bool;
  (** [useInteractionItemProps(scope, skip)]: the function it returns, from
      point identifiers to the props spread on the circle *)
  useInteractionItemProps :
    HookEnv -> HighlightScope -> bool -> ScatterItemIdentifier -> gmap string PropValue;
  (** ... and the identity of that function object, which may depend on the
      identity of the scope object it was given *)
  useInteractionItemProps_ref : HookEnv -> loc -> bool -> loc;
  (** number to string conversion of a template literal *)
  Number_toString : number -> string;
}.

Section Component.
Context {T : ImportedTypes} {I : Imports}.

(** *** Props *)

Record DefaultizedScatterSeriesType := {
  series_id : Id;
  series_data : loc;
  series_highlightScope : option loc;
  series_disableHover : option bool;
}.

Record ScatterProps := {
  series : DefaultizedScatterSeriesType;
  xScale : loc;
  yScale : loc;
  markerSize : number;
  color : string;
  onItemClick : option ItemClickCallback;
}.

(** *** The entries of [cleanData] *)

Record CleanDatum := {
  cd_x : number;
  cd_y : number;
  cd_id : Id;
  cd_dataIndex : nat;
  isHighlighted : bool;
  isFaded : bool;
  interactionProps : gmap string PropValue;
}.

(** *** The callback of the second [useMemo]

    Its free variables are its arguments, with the objects among them
    ([xScale], [yScale], [series.data], [item]) read at the time of the
    call. *)

Definition isInRange (minXRange maxXRange minYRange maxYRange x y : number) : bool :=
  js_ge x minXRange && js_le x maxXRange && js_ge y minYRange && js_le y maxYRange.

Section cleanData.
Variables (xScale_ yScale_ : D3Scale) (data : list ScatterValueType) (series_id_ : Id).
Variables (item_ : option ItemData) (highlightScope : HighlightScope).
Variable getInteractionItemProps : ScatterItemIdentifier -> gmap string PropValue.

Let getXPosition := getValueToPositionMapper xScale_.
Let getYPosition := getValueToPositionMapper yScale_.
Let xRange := range xScale_.
Let yRange := range yScale_.
Let minXRange := Math.min xRange.
Let maxXRange := Math.max xRange.
Let minYRange := Math.min yRange.
Let maxYRange := Math.max yRange.

(** One turn of the loop at index [i]: the entry pushed on [temp], if
    any. *)
Definition cleanData_entry (i : nat) (scatterPoint : ScatterValueType) : option CleanDatum :=
  let x := getXPosition (sv_x scatterPoint) in
  let y := getYPosition (sv_y scatterPoint) in
  let pointCtx := {| item_type := "scatter"; seriesId := series_id_; dataIndex := i |} in
  if isInRange minXRange maxXRange minYRange maxYRange x y then
    let isHighlighted_ := getIsHighlighted item_ pointCtx highlightScope in
    Some {| cd_x := x;
            cd_y := y;
            isHighlighted := isHighlighted_;
            isFaded := negb isHighlighted_ && getIsFaded item_ pointCtx highlightScope;
            interactionProps := getInteractionItemProps pointCtx;
            cd_id := sv_id scatterPoint;
            cd_dataIndex := i |}
  else None.

(** [for (let i = 0; i < series.data.length; i += 1)], from index [i]
    with [rest] the points still to visit. *)
Fixpoint cleanData_loop (i : nat) (rest : list ScatterValueType) (temp : list CleanDatum)
  : list CleanDatum :=
  match rest with
  | [] => temp
  | scatterPoint :: rest' =>
      match cleanData_entry i scatterPoint with
      | Some entry => cleanData_loop (S i) rest' (temp ++ [entry])
      | None => cleanData_loop (S i) rest' temp
      end
  end.

Definition cleanData : list CleanDatum := cleanData_loop 0 data [].

(** *** What the loop computes, point by point *)

(** The position of a point on the two axes is inside both pixel ranges,
    bounds included. *)
Definition visible (p : ScatterValueType) : Prop :=
  js_le (Math.min (range xScale_)) (getValueToPositionMapper xScale_ (sv_x p)) = true
  /\ js_le (getValueToPositionMapper xScale_ (sv_x p)) (Math.max (range xScale_)) = true
  /\ js_le (Math.min (range yScale_)) (getValueToPositionMapper yScale_ (sv_y p)) = true
  /\ js_le (getValueToPositionMapper yScale_ (sv_y p)) (Math.max (range yScale_)) = true.

(** The identifier built for the point at index [i]. *)
Definition pointCtx_ (i : nat) : ScatterItemIdentifier :=
  {| item_type := "scatter"; seriesId := series_id_; dataIndex := i |}.

(** The entry pushed for the point [p] found at index [i]. *)
Definition entry_of (i : nat) (p : ScatterValueType) : CleanDatum :=
  {| cd_x := getValueToPositionMapper xScale_ (sv_x p);
     cd_y := getValueToPositionMapper yScale_ (sv_y p);
     cd_id := sv_id p;
     cd_dataIndex := i;
     isHighlighted := getIsHighlighted item_ (pointCtx_ i) highlightScope;
     isFaded := negb (getIsHighlighted item_ (pointCtx_ i) highlightScope)
                && getIsFaded item_ (pointCtx_ i) highlightScope;
     interactionProps := getInteractionItemProps (pointCtx_ i) |}.

(** The test of the loop on the point [p]. *)
Definition inRange (p : ScatterValueType) : bool :=
  isInRange minXRange maxXRange minYRange maxYRange
    (getXPosition (sv_x p)) (getYPosition (sv_y p)).

End cleanData.

(** *** The JSX the component returns *)

(** [`translate(${x}, ${y})`] *)
Definition translate (x y : number) : string :=
  "translate(" +:+ Number_toString x +:+ ", " +:+ Number_toString y +:+ ")".

(** ['' + id]: React keeps the key of an element as a string, so a number
    and the string of its digits make the same key. *)
Definition key_string (id : Id) : string :=
  match id with
  | IdString s => s
  | IdNumber n => Number_toString n
  end.

(** A [<circle/>] element: its key, as React keeps it, and its
    attributes. *)
Record circle := {
  key : string;
  attrs : gmap string PropValue;
}.

(** The [<g>] element and its children. *)
Inductive Element :=
| g (children : list circle).

(** The attributes written out on the circle, before the spread. *)
Definition circle_attrs (props : ScatterProps) (dataPoint : CleanDatum) : gmap string PropValue :=
  {[ "cx" := PNumber 0;
     "cy" := PNumber 0;
     "r" := PNumber ((if isHighlighted dataPoint then 0x1.3333333333333p+0 else 1) * markerSize props);
     "transform" := PString (translate (cd_x dataPoint) (cd_y dataPoint));
     "fill" := PString (color props);
     "opacity" := PNumber (if isFaded dataPoint then 0x1.3333333333333p-2 else 1);
     "onClick" :=
       match onItemClick props with
       | Some onItemClick_ =>
           PHandler (fun event =>
             onItemClick_ event {| item_type := "scatter";
                                   seriesId := series_id (series props);
                                   dataIndex := cd_dataIndex dataPoint |})
       | None => PUndefined
       end;
     "cursor" := PString (if onItemClick props is Some _ then "pointer" else "unset") ]}.

(** [{...dataPoint.interactionProps}] comes last in the element, so its
    properties win over the ones written before it. *)
Definition Scatter_circle (props : ScatterProps) (dataPoint : CleanDatum) : circle :=
  {| key := key_string (cd_id dataPoint);
     attrs := interactionProps dataPoint ∪ circle_attrs props dataPoint |}.

Definition Scatter_return (props : ScatterProps) (cleanData_ : list CleanDatum) : Element :=
  g (map (Scatter_circle props) cleanData_).

Definition children (e : Element) : list circle :=
  match e with g circles => circles end.

(** What a click on a circle runs: the handler under [onClick], when the
    attribute holds one. *)
Definition click (c : circle) (event : Event) : option Effect :=
  match attrs c !! "onClick" with
  | Some (PHandler handler) => Some (handler event)
  | _ => None
  end.

(** *** The world a render pass runs in *)

(** The objects the props and the context refer to. *)
Record Heap := {
  arrays : loc -> list ScatterValueType;
  partial_scopes : loc -> PartialHighlightScope;
  scales : loc -> D3Scale;
  items : loc -> ItemData;
}.

(** The value of [InteractionContext], as far as the component reads it. *)
Record InteractionContextValue := {
  item : option loc;
  useVoronoiInteraction : bool;
}.

(** The highlight scope object built by the first [useMemo]. *)
Record HighlightScopeObject := {
  hs_ref : loc;
  hs_val : HighlightScope;
}.

(** The function object returned by [useInteractionItemProps]. *)
Record InteractionItemPropsGetter := {
  getter_ref : loc;
  getter_call : ScatterItemIdentifier -> gmap string PropValue;
}.

(** The dependency array of the second [useMemo]. *)
Record cleanData_deps := {
  dep_xScale : loc;
  dep_yScale : loc;
  dep_data : loc;
  dep_series_id : Id;
  dep_item : option loc;
  dep_highlightScope : loc;
  dep_getInteractionItemProps : loc;
}.

(** What React keeps for one instance of the component between passes: the
    two memo cells, and how many scope objects the instance has created
    (the identity of the next one). *)
Record Hooks := {
  memo_highlightScope : option (option loc * HighlightScopeObject);
  memo_cleanData : option (cleanData_deps * list CleanDatum);
  allocated : loc;
}.

Record World := {
  heap : Heap;
  InteractionContext : InteractionContextValue;
  hookEnv : HookEnv;
  hooks : Hooks;
}.

Definition set_hooks (f : Hooks -> Hooks) (w : World) : World :=
  {| heap := heap w;
     InteractionContext := InteractionContext w;
     hookEnv := hookEnv w;
     hooks := f (hooks w) |}.

Definition set_memo_highlightScope (c : option (option loc * HighlightScopeObject)) (h : Hooks) : Hooks :=
  {| memo_highlightScope := c;
     memo_cleanData := memo_cleanData h;
     allocated := allocated h |}.

Definition set_memo_cleanData (c : option (cleanData_deps * list CleanDatum)) (h : Hooks) : Hooks :=
  {| memo_highlightScope := memo_highlightScope h;
     memo_cleanData := c;
     allocated := allocated h |}.

Definition bump_allocated (h : Hooks) : Hooks :=
  {| memo_highlightScope := memo_highlightScope h;
     memo_cleanData := memo_cleanData h;
     allocated := S (allocated h) |}.

(** *** Render computations *)

Definition Render (A : Type) : Type := World -> A * World.

Definition ret {A} (a : A) : Render A := fun w => (a, w).

Definition bind {A B} (c : Render A) (k : A -> Render B) : Render B :=
  fun w => let '(a, w') := c w in k a w'.

Notation "'const' x := c 'in' k" := (bind c (fun x => k))
  (at level 10, x name, c at level 100, k at level 200, only parsing).

Definition read {A} (f : World -> A) : Render A := fun w => (f w, w).

(** [React.useContext(InteractionContext)] *)
Definition useContext_InteractionContext : Render InteractionContextValue :=
  read InteractionContext.

(** [React.useMemo(create, deps)] on the memo cell selected by [get] and
    [set]: the cached value when every dependency is [Object.is] the one
    stored with it, otherwise [create()] and store. *)
Definition useMemo {D V} (get : Hooks -> option (D * V))
    (set : option (D * V) -> Hooks -> Hooks)
    (areHookInputsEqual : D -> D -> bool) (create : Render V) (deps : D) : Render V :=
  fun w =>
    let recompute :=
      let '(value, w') := create w in
      (value, set_hooks (set (Some (deps, value))) w') in
    match get (hooks w) with
    | Some (prevDeps, prevValue) =>
        if areHookInputsEqual deps prevDeps then (prevValue, w) else recompute
    | None => recompute
    end.

(** Evaluating an object literal: a new object. *)
Definition new_HighlightScope (content : HighlightScope) : Render HighlightScopeObject :=
  fun w => ({| hs_ref := allocated (hooks w); hs_val := content |}, set_hooks bump_allocated w).

(** The call [useInteractionItemProps(highlightScope, skipInteractionHandlers)]. *)
Definition call_useInteractionItemProps (scope : HighlightScopeObject) (skip : bool)
  : Render InteractionItemPropsGetter :=
  fun w =>
    ({| getter_ref := useInteractionItemProps_ref (hookEnv w) (hs_ref scope) skip;
        getter_call := useInteractionItemProps (hookEnv w) (hs_val scope) skip |}, w).

Definition areHookInputsEqual_cleanData (next prev : cleanData_deps) : bool :=
  Object_is_loc (dep_xScale next) (dep_xScale prev)
  && Object_is_loc (dep_yScale next) (dep_yScale prev)
  && Object_is_loc (dep_data next) (dep_data prev)
  && Object_is_Id (dep_series_id next) (dep_series_id prev)
  && Object_is_nullable (dep_item next) (dep_item prev)
  && Object_is_loc (dep_highlightScope next) (dep_highlightScope prev)
  && Object_is_loc (dep_getInteractionItemProps next) (dep_getInteractionItemProps prev).

(** Truthiness of an optional boolean. *)
Definition truthy (b : option bool) : bool := default false b.

(** *** The component *)

(** The body of [Scatter] down to [cleanData]. *)
Definition Scatter_cleanData (props : ScatterProps) : Render (list CleanDatum) :=
  let series_ := series props in
  const highlightScope :=
    useMemo memo_highlightScope set_memo_highlightScope Object_is_nullable
      (const heap_ := read heap in
       new_HighlightScope
         (spread_highlightScope (partial_scopes heap_ <$> series_highlightScope series_)))
      (series_highlightScope series_) in
  const ctx := useContext_InteractionContext in
  let skipInteractionHandlers :=
    useVoronoiInteraction ctx || truthy (series_disableHover series_) in
  const getInteractionItemProps :=
    call_useInteractionItemProps highlightScope skipInteractionHandlers in
  useMemo memo_cleanData set_memo_cleanData areHookInputsEqual_cleanData
    (const heap_ := read heap in
     ret (cleanData (scales heap_ (xScale props)) (scales heap_ (yScale props))
            (arrays heap_ (series_data series_)) (series_id series_)
            (items heap_ <$> item ctx) (hs_val highlightScope)
            (getter_call getInteractionItemProps)))
    {| dep_xScale := xScale props;
       dep_yScale := yScale props;
       dep_data := series_data series_;
       dep_series_id := series_id series_;
       dep_item := item ctx;
       dep_highlightScope := hs_ref highlightScope;
       dep_getInteractionItemProps := getter_ref getInteractionItemProps |}.

Definition Scatter (props : ScatterProps) : Render Element :=
  const cleanData_ := Scatter_cleanData props in
  ret (Scatter_return props cleanData_).

(** What of the world belongs to the rest of the program, and not to this
    instance of the component. *)
Definition outside (w : World) : Heap * InteractionContextValue * HookEnv :=
  (heap w, InteractionContext w, hookEnv w).

(** A render computation that leaves alone what is outside the instance. *)
Definition frames {A} (c : Render A) : Prop :=
  forall w, outside (c w).2 = outside w.

Definition Scatter_run (props : ScatterProps) (w : World) : (list CleanDatum * Element) * World :=
  let '(cleanData_, w') := Scatter_cleanData props w in
  ((cleanData_, Scatter_return props cleanData_), w').

(** *** Successive render passes of one instance *)

(** What a pass is given: the props, and the heap, context value and hook
    environment at the time of the pass. Between two passes the rest of the
    program may have changed any of them. *)
Record Pass := {
  pass_props : ScatterProps;
  pass_heap : Heap;
  pass_context : InteractionContextValue;
  pass_hookEnv : HookEnv;
}.

Definition enter (p : Pass) (h : Hooks) : World :=
  {| heap := pass_heap p;
     InteractionContext := pass_context p;
     hookEnv := pass_hookEnv p;
     hooks := h |}.

(** The hook state of an instance that has not rendered yet. *)
Definition mount : Hooks :=
  {| memo_highlightScope := None; memo_cleanData := None; allocated := 0 |}.

(** The passes in order, the hook state of one pass handed to the next:
    for each pass the [cleanData] it used and the element it returned. *)
Fixpoint renders (h : Hooks) (passes : list Pass) : list (list CleanDatum * Element) :=
  match passes with
  | [] => []
  | p :: later =>
      let '(result, w) := Scatter_run (pass_props p) (enter p h) in
      result :: renders (hooks w) later
  end.

(** The dependency array of the second [useMemo] in the pass [p], when the
    first one answered the scope object [o]. *)
Definition pass_deps (p : Pass) (o : HighlightScopeObject) : cleanData_deps :=
  {| dep_xScale := xScale (pass_props p);
     dep_yScale := yScale (pass_props p);
     dep_data := series_data (series (pass_props p));
     dep_series_id := series_id (series (pass_props p));
     dep_item := item (pass_context p);
     dep_highlightScope := hs_ref o;
     dep_getInteractionItemProps :=
       useInteractionItemProps_ref (pass_hookEnv p) (hs_ref o)
         (useVoronoiInteraction (pass_context p)
          || truthy (series_disableHover (series (pass_props p)))) |}.

(** The hook state the passes leave behind. *)
Fixpoint hooks_after (h : Hooks) (passes : list Pass) : Hooks :=
  match passes with
  | [] => h
  | p :: later =>
      hooks_after (hooks (Scatter_run (pass_props p) (enter p h)).2) later
  end.

(** Two passes given the same objects: every dependency of the two memo
    cells is, in [q], the object or the primitive value it is in [p], and
    the hook answers in both with the same function object. Nothing is said
    of what the objects hold. *)
Record same_identities (p q : Pass) : Prop := {
  identical_xScale : xScale (pass_props p) = xScale (pass_props q);
  identical_yScale : yScale (pass_props p) = yScale (pass_props q);
  identical_data :
    series_data (series (pass_props p)) = series_data (series (pass_props q));
  identical_series_id :
    series_id (series (pass_props p)) = series_id (series (pass_props q));
  identical_highlightScope :
    series_highlightScope (series (pass_props p))
    = series_highlightScope (series (pass_props q));
  identical_item : item (pass_context p) = item (pass_context q);
  identical_getInteractionItemProps :
    forall l,
      useInteractionItemProps_ref (pass_hookEnv p) l
        (useVoronoiInteraction (pass_context p)
         || truthy (series_disableHover (series (pass_props p))))
      = useInteractionItemProps_ref (pass_hookEnv q) l
          (useVoronoiInteraction (pass_context q)
           || truthy (series_disableHover (series (pass_props q))));
}.

(** How many of the passes are given a [series.highlightScope] that is not
    the object the pass before was given, [previous] being what the pass
    before the first was given, if there was one. *)
Fixpoint highlightScope_changes (previous : option (option loc)) (passes : list Pass) : nat :=
  match passes with
  | [] => 0
  | p :: later =>
      let current := series_highlightScope (series (pass_props p)) in
      (match previous with
       | Some before => if Object_is_nullable current before then 0 else 1
       | None => 1
       end)
      + highlightScope_changes (Some current) later
  end.

(** *** The records of a pass, as the specification describes them

    Recomputed at each render from that pass's scale functions, series
    data and interaction context, with nothing kept from earlier passes. *)

Definition pass_series (p : Pass) : DefaultizedScatterSeriesType := series (pass_props p).

Definition pass_highlightScope (p : Pass) : HighlightScope :=
  spread_highlightScope
    (partial_scopes (pass_heap p) <$> series_highlightScope (pass_series p)).

Definition pass_skipInteractionHandlers (p : Pass) : bool :=
  useVoronoiInteraction (pass_context p) || truthy (series_disableHover (pass_series p)).

Definition pass_item (p : Pass) : option ItemData :=
  items (pass_heap p) <$> item (pass_context p).

Definition pass_getInteractionItemProps (p : Pass)
  : ScatterItemIdentifier -> gmap string PropValue :=
  useInteractionItemProps (pass_hookEnv p) (pass_highlightScope p)
    (pass_skipInteractionHandlers p).

Definition recomputed_cleanData (p : Pass) : list CleanDatum :=
  cleanData (scales (pass_heap p) (xScale (pass_props p)))
    (scales (pass_heap p) (yScale (pass_props p)))
    (arrays (pass_heap p) (series_data (pass_series p)))
    (series_id (pass_series p))
    (pass_item p) (pass_highlightScope p) (pass_getInteractionItemProps p).

Definition recomputed_output (p : Pass) : Element :=
  Scatter_return (pass_props p) (recomputed_cleanData p).

(** *** Objects that keep their contents while they keep their identity

    [q] and [p] are two passes of a sequence. Whenever a dependency of a
    memo cell is the same object in both, that object has the same contents
    in both: nothing was mutated in place in between. For the function
    returned by [useInteractionItemProps]: when it is the same function
    object in both passes, for scope objects [l] and [l'] that are either
    distinct or have equal contents, it is the same function. *)
Record unmutated (q p : Pass) : Prop := {
  unmutated_xScale :
    xScale (pass_props q) = xScale (pass_props p) ->
    scales (pass_heap q) (xScale (pass_props q)) = scales (pass_heap p) (xScale (pass_props p));
  unmutated_yScale :
    yScale (pass_props q) = yScale (pass_props p) ->
    scales (pass_heap q) (yScale (pass_props q)) = scales (pass_heap p) (yScale (pass_props p));
  unmutated_data :
    series_data (pass_series q) = series_data (pass_series p) ->
    arrays (pass_heap q) (series_data (pass_series q))
    = arrays (pass_heap p) (series_data (pass_series p));
  unmutated_item :
    item (pass_context q) = item (pass_context p) -> pass_item q = pass_item p;
  unmutated_highlightScope :
    series_highlightScope (pass_series q) = series_highlightScope (pass_series p) ->
    partial_scopes (pass_heap q) <$> series_highlightScope (pass_series q)
    = partial_scopes (pass_heap p) <$> series_highlightScope (pass_series p);
  unmutated_getInteractionItemProps :
    forall l l' : loc,
      useInteractionItemProps_ref (pass_hookEnv q) l (pass_skipInteractionHandlers q)
      = useInteractionItemProps_ref (pass_hookEnv p) l' (pass_skipInteractionHandlers p) ->
      (l = l' -> pass_highlightScope q = pass_highlightScope p) ->
      pass_getInteractionItemProps q = pass_getInteractionItemProps p;
}.

Definition coherent (passes : list Pass) : Prop :=
  forall q p, q ∈ passes -> p ∈ passes -> unmutated q p.

(** *** Two passes with equal inputs

    The two scales map values to the same positions and have the same
    ranges; the series have the same points, the same id, the same highlight
    scope and the same [disableHover]; the interaction context points at the
    same item, with the same [useVoronoiInteraction], and the hook reads the
    same environment. Nothing is asked of the marker size, the color or the
    click callback, nor of the identities of the objects. *)
Record same_inputs (p1 p2 : Pass) : Prop := {
  same_x_position :
    getValueToPositionMapper (scales (pass_heap p1) (xScale (pass_props p1)))
    = getValueToPositionMapper (scales (pass_heap p2) (xScale (pass_props p2)));
  same_x_range :
    range (scales (pass_heap p1) (xScale (pass_props p1)))
    = range (scales (pass_heap p2) (xScale (pass_props p2)));
  same_y_position :
    getValueToPositionMapper (scales (pass_heap p1) (yScale (pass_props p1)))
    = getValueToPositionMapper (scales (pass_heap p2) (yScale (pass_props p2)));
  same_y_range :
    range (scales (pass_heap p1) (yScale (pass_props p1)))
    = range (scales (pass_heap p2) (yScale (pass_props p2)));
  same_data :
    arrays (pass_heap p1) (series_data (pass_series p1))
    = arrays (pass_heap p2) (series_data (pass_series p2));
  same_series_id : series_id (pass_series p1) = series_id (pass_series p2);
  same_highlightScope :
    partial_scopes (pass_heap p1) <$> series_highlightScope (pass_series p1)
    = partial_scopes (pass_heap p2) <$> series_highlightScope (pass_series p2);
  same_disableHover :
    series_disableHover (pass_series p1) = series_disableHover (pass_series p2);
  same_item : pass_item p1 = pass_item p2;
  same_useVoronoiInteraction :
    useVoronoiInteraction (pass_context p1) = useVoronoiInteraction (pass_context p2);
  same_hookEnv : pass_hookEnv p1 = pass_hookEnv p2;
}.

(** *** Invariants of the hook state *)

(** Every entry kept in the second memo cell satisfies [P]. *)
Definition memo_all (P : CleanDatum -> Prop) (h : Hooks) : Prop :=
  forall d cleanData_, memo_cleanData h = Some (d, cleanData_) -> Forall P cleanData_.

(** An entry is not both highlighted and faded. *)
Definition not_both (r : CleanDatum) : Prop :=
  isHighlighted r && isFaded r = false /\ (isHighlighted r = true -> isFaded r = false).

(** [d] is the dependency array of the pass [q], for a scope object of
    identity [dep_highlightScope d]. *)
Record deps_of (q : Pass) (d : cleanData_deps) : Prop := {
  deps_xScale : dep_xScale d = xScale (pass_props q);
  deps_yScale : dep_yScale d = yScale (pass_props q);
  deps_data : dep_data d = series_data (pass_series q);
  deps_series_id : dep_series_id d = series_id (pass_series q);
  deps_item : dep_item d = item (pass_context q);
  deps_getInteractionItemProps :
    dep_getInteractionItemProps d
    = useInteractionItemProps_ref (pass_hookEnv q) (dep_highlightScope d)
        (pass_skipInteractionHandlers q);
}.

(** The first memo cell holds a scope object made in one of the passes
    [seen], for the [series.highlightScope] of that pass. *)
Definition memo_highlightScope_inv (seen : list Pass) (h : Hooks) : Prop :=
  forall d o, memo_highlightScope h = Some (d, o) ->
    hs_ref o < allocated h
    /\ exists q, q ∈ seen
         /\ d = series_highlightScope (pass_series q)
         /\ hs_val o = pass_highlightScope q.

(** The second memo cell holds the entries recomputed in one of the passes
    [seen], for a scope object that is the one of the first cell or an
    older one. *)
Definition memo_cleanData_inv (seen : list Pass) (h : Hooks) : Prop :=
  forall d cleanData_, memo_cleanData h = Some (d, cleanData_) ->
    exists q, q ∈ seen
      /\ deps_of q d
      /\ cleanData_ = recomputed_cleanData q
      /\ exists d1 o1, memo_highlightScope h = Some (d1, o1)
           /\ dep_highlightScope d <= hs_ref o1
           /\ (dep_highlightScope d = hs_ref o1 -> hs_val o1 = pass_highlightScope q).

Definition hooks_inv (seen : list Pass) (h : Hooks) : Prop :=
  memo_highlightScope_inv seen h /\ memo_cleanData_inv seen h.

End Component.

(** ** An instance to run the component on

    Linear scales, an interaction item that is a point identifier with an
    optional index, event handlers that answer the action they dispatch,
    and a hook environment that is the identity of the function the hook
    returns in that pass. *)
Module Demo.

Record LinearScale := {
  factor : number;
  offset : number;
  pixels : list number;
}.

Record Item := {
  selected_type : string;
  selected_seriesId : Id;
  selected_dataIndex : option nat;
}.

Inductive Action :=
| enterItem (data : ScatterItemIdentifier) (scope : HighlightScope)
| leaveItem (data : ScatterItemIdentifier)
| itemClick (event : nat) (data : ScatterItemIdentifier).

Definition types : ImportedTypes :=
  {| D3Scale := LinearScale; ItemData := Item; HookEnv := loc; Event := nat; Effect := Action |}.

#[local] Existing Instance types.

Definition strict_equal_Id (a b : Id) : bool :=
  match a, b with
  | IdString s, IdString t => bool_decide (s = t)
  | IdNumber n, IdNumber m => PrimFloat.eqb n m
  | _, _ => false
  end.

Definition isSeriesSelected (selectedItem : Item) (currentItem : ScatterItemIdentifier) : bool :=
  bool_decide (selected_type selectedItem = item_type currentItem)
  && strict_equal_Id (selected_seriesId selectedItem) (seriesId currentItem).

Definition demo_getIsHighlighted (selectedItem : option Item)
    (currentItem : ScatterItemIdentifier) (scope : HighlightScope) : bool :=
  match highlighted scope, selectedItem with
  | opt name, Some selected =>
      if bool_decide (name = "none") || bool_decide (name = "") then false
      else if negb (isSeriesSelected selected currentItem) then false
      else if bool_decide (name = "series") then true
      else bool_decide (selected_dataIndex selected = Some (dataIndex currentItem))
  | _, _ => false
  end.

Definition demo_getIsFaded (selectedItem : option Item)
    (currentItem : ScatterItemIdentifier) (scope : HighlightScope) : bool :=
  match faded scope, selectedItem with
  | opt name, Some selected =>
      if bool_decide (name = "series") then
        isSeriesSelected selected currentItem
        && negb (bool_decide (selected_dataIndex selected = Some (dataIndex currentItem)))
      else if bool_decide (name = "global") then
        if negb (isSeriesSelected selected currentItem) then true
        else match selected_dataIndex selected with
             | Some k => negb (bool_decide (k = dataIndex currentItem))
             | None => false
             end
      else false
  | _, _ => false
  end.

Definition demo_useInteractionItemProps (env : loc) (scope : HighlightScope) (skip : bool)
    (data : ScatterItemIdentifier) : gmap string (@PropValue types) :=
  if skip then ∅
  else {[ "onMouseEnter" := @PHandler types (fun _ => enterItem data scope);
          "onMouseLeave" := @PHandler types (fun _ => leaveItem data) ]}.

Fixpoint float_of_nat (k : nat) : number :=
  match k with
  | 0 => 0
  | S k' => float_of_nat k' + 1
  end.

(** The decimal form of the small whole numbers, enough for the examples. *)
Definition demo_Number_toString (n : number) : string :=
  if is_nan n then "NaN"
  else
    match find (fun k => PrimFloat.eqb (float_of_nat k) n) (seq 0 200) with
    | Some k => pretty k
    | None => "?"
    end.

Definition imports : @Imports types :=
  {| getValueToPositionMapper := fun (scale : @D3Scale types) value =>
       (value * factor scale + offset scale)%float;
     range := pixels;
     getIsHighlighted := demo_getIsHighlighted;
     getIsFaded := demo_getIsFaded;
     useInteractionItemProps := demo_useInteractionItemProps;
     useInteractionItemProps_ref := fun env _ _ => env;
     Number_toString := demo_Number_toString |}.

#[local] Existing Instance imports.

(** A horizontal axis of 10 pixels per unit on [0, 100], and a vertical one
    that grows downwards on [100, 0]. *)
Definition xAxis : LinearScale := {| factor := 10; offset := 0; pixels := [0; 100]%float |}.
Definition yAxis : LinearScale := {| factor := -10; offset := 100; pixels := [100; 0]%float |}.

Definition points : list ScatterValueType :=
  [ {| sv_x := 1; sv_y := 1; sv_id := IdString "a" |};
    {| sv_x := 20; sv_y := 5; sv_id := IdString "b" |};
    {| sv_x := 5; sv_y := 5; sv_id := IdNumber 3 |};
    {| sv_x := 0; sv_y := 10; sv_id := IdString "d" |} ].

Definition pointed : Item :=
  {| selected_type := "scatter"; selected_seriesId := IdString "s1"; selected_dataIndex := Some 2 |}.

Definition demo_heap : @Heap types :=
  {| arrays := fun l => if Nat.eqb l 7 then points else [];
     partial_scopes := fun _ => {| own_highlighted := None; own_faded := Some (opt "series") |};
     scales := fun l => if Nat.eqb l 1 then xAxis else yAxis;
     items := fun _ => pointed |}.

Definition demo_series : DefaultizedScatterSeriesType :=
  {| series_id := IdString "s1";
     series_data := 7;
     series_highlightScope := Some 4;
     series_disableHover := None |}.

Definition demo_props (onItemClick_ : option (@ItemClickCallback types)) : @ScatterProps types :=
  {| series := demo_series;
     xScale := 1;
     yScale := 2;
     markerSize := 4;
     color := "#02b2af";
     onItemClick := onItemClick_ |}.

Definition report : @ItemClickCallback types := itemClick.

(** A pass with the pointer on the item [hovered], the hook function of
    identity [fn]. *)
Definition demo_pass (hovered : option loc) (fn : loc) : @Pass types :=
  {| pass_props := demo_props (Some report);
     pass_heap := demo_heap;
     pass_context := {| item := hovered; useVoronoiInteraction := false |};
     pass_hookEnv := fn |}.

Definition demo_cleanData : list CleanDatum :=
  recomputed_cleanData (demo_pass (Some 9) 30).

(** Four passes of one instance: the second finds everything as the first
    left it, the third finds the pointer gone, the fourth is given a new
    hook function. *)
Definition demo_passes : list Pass :=
  [ demo_pass (Some 9) 30; demo_pass (Some 9) 30; demo_pass None 30; demo_pass None 31 ].

(** The same chart held in other objects, drawn with another marker size
    and color and with no click callback. *)
Definition other_heap : Heap :=
  {| arrays := fun l => if Nat.eqb l 8 then points else [];
     partial_scopes := fun _ => {| own_highlighted := None; own_faded := Some (opt "series") |};
     scales := fun l => if Nat.eqb l 5 then xAxis else yAxis;
     items := fun _ => pointed |}.

Definition other_pass : Pass :=
  {| pass_props :=
       {| series := {| series_id := IdString "s1";
                       series_data := 8;
                       series_highlightScope := Some 6;
                       series_disableHover := None |};
          xScale := 5;
          yScale := 3;
          markerSize := 9;
          color := "red";
          onItemClick := None |};
     pass_heap := other_heap;
     pass_context := {| item := Some 2; useVoronoiInteraction := false |};
     pass_hookEnv := 30 |}.

(** The entry of the third point in the first pass of [demo_passes]. *)
Definition demo_third : CleanDatum :=
  entry_of xAxis yAxis (IdString "s1") (Some pointed)
    (pass_highlightScope (demo_pass (Some 9) 30))
    (pass_getInteractionItemProps (demo_pass (Some 9) 30))
    2 {| sv_x := 5; sv_y := 5; sv_id := IdNumber 3 |}.

(** Scales whose range is empty, holds a NaN, or runs from high to low. *)
Definition no_pixels : LinearScale := {| factor := 10; offset := 0; pixels := [] |}.
Definition nan_pixels : LinearScale := {| factor := 10; offset := 0; pixels := [0; nan]%float |}.
Definition xAxis_reversed : LinearScale :=
  {| factor := 10; offset := 0; pixels := [100; 0]%float |}.

(** A point with no x value. *)
Definition lost_point : ScatterValueType :=
  {| sv_x := nan; sv_y := 1; sv_id := IdString "lost" |}.

(** The pass [demo_pass (Some 9) 30] again, after the array of points was
    emptied in place: the same objects, holding something else. *)
Definition mutated_pass : Pass :=
  {| pass_props := demo_props (Some report);
     pass_heap :=
       {| arrays := fun _ => [];
          partial_scopes := partial_scopes demo_heap;
          scales := scales demo_heap;
          items := items demo_heap |};
     pass_context := {| item := Some 9; useVoronoiInteraction := false |};
     pass_hookEnv := 30 |}.

(** The pass [demo_pass (Some 9) 30] again, after the highlight scope of
    the series was changed in place to highlight and fade nothing, and with
    a new hook function: the same series, scales and item objects. *)
Definition rescoped_pass : Pass :=
  {| pass_props := demo_props (Some report);
     pass_heap :=
       {| arrays := arrays demo_heap;
          partial_scopes := fun _ => {| own_highlighted := Some (opt "none");
                                        own_faded := Some (opt "none") |};
          scales := scales demo_heap;
          items := items demo_heap |};
     pass_context := {| item := Some 9; useVoronoiInteraction := false |};
     pass_hookEnv := 31 |}.

(** The entries [rescoped_pass] uses when it comes after
    [demo_pass (Some 9) 30] in the life of one instance. *)
Definition stale_entries : list CleanDatum :=
  (Scatter_run (pass_props rescoped_pass)
     (enter rescoped_pass
        (hooks (Scatter_run (pass_props (demo_pass (Some 9) 30))
                  (enter (demo_pass (Some 9) 30) mount)).2))).1.1.

(** What is read off an entry in the examples. *)
Definition summary (r : CleanDatum) : number * number * Id * nat * bool * bool :=
  (cd_x r, cd_y r, cd_id r, cd_dataIndex r, isHighlighted r, isFaded r).

End Demo.

(** * Properties *)

Lemma Object_is_number_eq a b : Object_is_number a b = true -> a = b.
Proof. apply FloatAxioms.Leibniz.eqb_spec. Qed.

Lemma Object_is_Id_eq a b : Object_is_Id a b = true -> a = b.
Proof.
  destruct a as [s|n], b as [t|m]; simpl; try discriminate.
  - intros E. apply bool_decide_eq_true in E. congruence.
  - intros E. apply Object_is_number_eq in E. congruence.
Qed.

Lemma Object_is_loc_eq a b : Object_is_loc a b = true -> a = b.
Proof. apply Nat.eqb_eq. Qed.

Lemma Object_is_nullable_eq a b : Object_is_nullable a b = true -> a = b.
Proof.
  destruct a, b; simpl; try discriminate; try reflexivity.
  intros E. apply Object_is_loc_eq in E. congruence.
Qed.

Section Loop.
Context {T : ImportedTypes} {I : Imports}.
Variables (xs ys : D3Scale) (data : list ScatterValueType) (sid : Id).
Variables (pointed : option ItemData) (scope : HighlightScope).
Variable gip : ScatterItemIdentifier -> gmap string PropValue.

Local Abbreviation entry := (cleanData_entry xs ys sid pointed scope gip).
Local Abbreviation loop := (cleanData_loop xs ys sid pointed scope gip).
Local Abbreviation visible := (visible xs ys).
Local Abbreviation entry_of := (entry_of xs ys sid pointed scope gip).

Lemma isInRange_visible p :
  isInRange (Math.min (range xs)) (Math.max (range xs))
    (Math.min (range ys)) (Math.max (range ys))
    (getValueToPositionMapper xs (sv_x p)) (getValueToPositionMapper ys (sv_y p)) = true
  <-> visible p.
Proof.
  unfold isInRange, visible, js_ge, js_le.
  rewrite !andb_true_iff. tauto.
Qed.

Lemma cleanData_entry_Some i p r :
  entry i p = Some r <-> visible p /\ r = entry_of i p.
Proof.
  rewrite <- isInRange_visible. unfold cleanData_entry, entry_of.
  destruct (isInRange _ _ _ _ _ _); split.
  - intros [= <-]. split; reflexivity.
  - intros [_ ->]. reflexivity.
  - discriminate.
  - intros [[=] _].
Qed.

Lemma cleanData_entry_None i p :
  entry i p = None <-> ~ visible p.
Proof.
  rewrite <- isInRange_visible. unfold cleanData_entry.
  destruct (isInRange _ _ _ _ _ _); split; try discriminate; try tauto; intros []; reflexivity.
Qed.

(** The loop pushes, in order, the entries of the points it visits. *)
Lemma cleanData_loop_omap rest : forall i temp,
  loop i rest temp = temp ++ omap id (imap (fun j => entry (i + j)) rest).
Proof.
  induction rest as [|p rest IH]; intros i temp; simpl.
  - now rewrite app_nil_r.
  - rewrite Nat.add_0_r.
    rewrite (imap_ext _ (fun j => entry (S i + j)) rest)
      by (intros; simpl; f_equal; lia).
    destruct (entry i p) as [r|]; rewrite IH; simpl.
    + now rewrite <- app_assoc.
    + reflexivity.
Qed.

Lemma cleanData_omap :
  cleanData xs ys data sid pointed scope gip = omap id (imap entry data).
Proof. unfold cleanData. now rewrite cleanData_loop_omap. Qed.

Lemma elem_of_cleanData r :
  r ∈ cleanData xs ys data sid pointed scope gip
  <-> exists i p, data !! i = Some p /\ visible p /\ r = entry_of i p.
Proof.
  rewrite cleanData_omap, list_elem_of_omap. split.
  - intros (o & Ho & E). simpl in E. subst o.
    apply elem_of_lookup_imap in Ho as (i & p & E & Hp).
    symmetry in E. apply cleanData_entry_Some in E as [V ->]. eauto.
  - intros (i & p & Hp & V & ->). exists (entry i p). split.
    + apply elem_of_lookup_imap. eauto.
    + simpl. apply cleanData_entry_Some. auto.
Qed.

End Loop.

Section CleanData.
Context {T : ImportedTypes} {I : Imports}.
Variables (xs ys : D3Scale) (data : list ScatterValueType) (sid : Id).
Variables (pointed : option ItemData) (scope : HighlightScope).
Variable gip : ScatterItemIdentifier -> gmap string PropValue.

(** C1: the point at index [i] of the data gets an entry in [cleanData]
    exactly when its position on the x axis lies between the least and the
    greatest value of [xScale.range()] and its position on the y axis
    between those of [yScale.range()], bounds included. The other points
    are left out, and the computation has no failing case: [cleanData] is a
    total function to a list. *)
Theorem cleanData_entry_iff_in_range (i : nat) (p : ScatterValueType) :
  data !! i = Some p ->
  let x := getValueToPositionMapper xs (sv_x p) in
  let y := getValueToPositionMapper ys (sv_y p) in
  (exists r, r ∈ cleanData xs ys data sid pointed scope gip /\ cd_dataIndex r = i)
  <-> (js_le (Math.min (range xs)) x = true /\ js_le x (Math.max (range xs)) = true
       /\ js_le (Math.min (range ys)) y = true /\ js_le y (Math.max (range ys)) = true).
Proof.
  intros Hp x y. change (_ /\ _ /\ _ /\ _) with (visible xs ys p). split.
  - intros (r & Hr & Hi). apply elem_of_cleanData in Hr as (j & q & Hq & V & ->).
    simpl in Hi. subst j. congruence.
  - intros V. exists (entry_of xs ys sid pointed scope gip i p). split; [|reflexivity].
    apply elem_of_cleanData. eauto.
Qed.

Lemma tags_sublist (l : list ScatterValueType) : forall k,
  (fun r => (cd_dataIndex r, cd_id r))
    <$> omap id (imap (fun j => cleanData_entry xs ys sid pointed scope gip (k + j)) l)
  `sublist_of` imap (fun j q => (k + j, sv_id q)) l.
Proof.
  induction l as [|q l IH]; intros k; [constructor|].
  rewrite !imap_cons. simpl.
  rewrite (imap_ext _ (fun j => cleanData_entry xs ys sid pointed scope gip (S k + j)) l)
    by (intros; simpl; f_equal; lia).
  rewrite (imap_ext (_ ∘ S) (fun j q => (S k + j, sv_id q)) l)
    by (intros; simpl; f_equal; lia).
  destruct (cleanData_entry _ _ _ _ _ _ (k + 0) q) as [r|] eqn:E; simpl.
  - apply cleanData_entry_Some in E as [_ ->]. simpl. apply sublist_skip. exact (IH (S k)).
  - apply sublist_cons. exact (IH (S k)).
Qed.

(** C9: the entries of [cleanData], read as (index, id) pairs, are a
    subsequence of the points of the data paired with their indices, in the
    same order; each entry carries the index of a point of the data and
    the id of that point; there are no more entries than points. *)
Theorem cleanData_subsequence :
  (fun r => (cd_dataIndex r, cd_id r)) <$> cleanData xs ys data sid pointed scope gip
    `sublist_of` imap (fun i p => (i, sv_id p)) data
  /\ Forall (fun r => exists p, data !! cd_dataIndex r = Some p /\ cd_id r = sv_id p)
       (cleanData xs ys data sid pointed scope gip)
  /\ length (cleanData xs ys data sid pointed scope gip) <= length data.
Proof.
  assert (S : (fun r => (cd_dataIndex r, cd_id r)) <$> cleanData xs ys data sid pointed scope gip
              `sublist_of` imap (fun i p => (i, sv_id p)) data).
  { rewrite cleanData_omap. apply (tags_sublist data 0). }
  split; [exact S|]. split.
  - apply Forall_forall. intros r Hr.
    apply elem_of_cleanData in Hr as (i & p & Hp & _ & ->). eauto.
  - apply sublist_length in S. now rewrite length_fmap, length_imap in S.
Qed.

End CleanData.

Section Circle.
Context {T : ImportedTypes} {I : Imports}.




Lemma circle_attrs_onClick props r :
  circle_attrs props r !! "onClick"
  = Some match onItemClick props with
         | Some onItemClick_ =>
             PHandler (fun event =>
               onItemClick_ event {| item_type := "scatter";
                                     seriesId := series_id (series props);
                                     dataIndex := cd_dataIndex r |})
         | None => PUndefined
         end.
Proof. reflexivity. Qed.

(** An attribute written on the circle is the one the element carries when
    the spread props do not have it. *)
Lemma Scatter_circle_attr props r name :
  interactionProps r !! name = None ->
  attrs (Scatter_circle props r) !! name = circle_attrs props r !! name.
Proof. intros E. simpl. now apply lookup_union_r. Qed.

End Circle.

Section Rendered.
Context {T : ImportedTypes} {I : Imports}.



End Rendered.

Section Frame.
Context {T : ImportedTypes} {I : Imports}.

Lemma frames_ret {A} (a : A) : frames (ret a).
Proof. intros w. reflexivity. Qed.

Lemma frames_read {A} (f : World -> A) : frames (read f).
Proof. intros w. reflexivity. Qed.

Lemma frames_bind {A B} (c : Render A) (k : A -> Render B) :
  frames c -> (forall a, frames (k a)) -> frames (bind c k).
Proof.
  intros Hc Hk w. unfold bind. specialize (Hc w).
  destruct (c w) as [a w']. simpl in Hc. now rewrite Hk.
Qed.

Lemma frames_set_hooks f w : outside (set_hooks f w) = outside w.
Proof. reflexivity. Qed.

Lemma frames_useMemo {D V} get set same (create : Render V) (deps : D) :
  frames create -> frames (useMemo get set same create deps).
Proof.
  intros Hc w. unfold useMemo. specialize (Hc w).
  destruct (create w) as [v w']. simpl in Hc.
  destruct (get (hooks w)) as [[d v']|]; [destruct (same deps d)|]; simpl;
    now rewrite ?frames_set_hooks.
Qed.

Lemma frames_new_HighlightScope content : frames (new_HighlightScope content).
Proof. intros w. reflexivity. Qed.

Lemma frames_call_useInteractionItemProps o skip :
  frames (call_useInteractionItemProps o skip).
Proof. intros w. reflexivity. Qed.

Lemma frames_Scatter_cleanData props : frames (Scatter_cleanData props).
Proof.
  unfold Scatter_cleanData, useContext_InteractionContext.
  repeat first
    [ apply frames_bind; [|intros ?]
    | apply frames_useMemo
    | apply frames_read
    | apply frames_ret
    | apply frames_new_HighlightScope
    | apply frames_call_useInteractionItemProps ].
Qed.

(** [Scatter_run] is [Scatter], with the entries it used kept beside the
    element. *)
Lemma Scatter_run_Scatter props w :
  Scatter props w = ((Scatter_run props w).1.2, (Scatter_run props w).2).
Proof.
  unfold Scatter, Scatter_run, bind, ret.
  now destruct (Scatter_cleanData props w).
Qed.

Lemma frames_Scatter props : frames (Scatter props).
Proof.
  unfold Scatter. apply frames_bind; [apply frames_Scatter_cleanData|].
  intros ?. apply frames_ret.
Qed.


(** C5: a render pass only reads the series: the array [series.data]
    holds after [Scatter] has returned the points it held before, in the
    same order, and so does every other object of the heap. *)
Theorem Scatter_keeps_series_data props w :
  arrays (heap (Scatter props w).2) (series_data (series props))
  = arrays (heap w) (series_data (series props))
  /\ heap (Scatter props w).2 = heap w.
Proof.
  pose proof (frames_Scatter props w) as E. unfold outside in E.
  injection E as E _ _. now rewrite E.
Qed.

End Frame.

Section Memo.
Context {T : ImportedTypes} {I : Imports}.

(** Where the entries used by a pass come from: the memo cell, or a call
    of the callback. The cell holds them afterwards. *)
Lemma Scatter_cleanData_origin props w :
  (exists d, memo_cleanData (hooks (Scatter_cleanData props w).2)
             = Some (d, (Scatter_cleanData props w).1))
  /\ ((exists d, memo_cleanData (hooks w) = Some (d, (Scatter_cleanData props w).1))
      \/ exists xs ys data sid pointed scope gip,
           (Scatter_cleanData props w).1 = cleanData xs ys data sid pointed scope gip).
Proof.
  unfold Scatter_cleanData, bind, useContext_InteractionContext, read,
    call_useInteractionItemProps.
  set (first := useMemo memo_highlightScope _ _ _ _ w).
  assert (E : memo_cleanData (hooks first.2) = memo_cleanData (hooks w)).
  { subst first. unfold useMemo, bind, read, new_HighlightScope. simpl.
    destruct (memo_highlightScope (hooks w)) as [[d o]|]; [|reflexivity].
    destruct (Object_is_nullable _ d); reflexivity. }
  destruct first as [o w1]. simpl in E. unfold useMemo at 1 2 3 4. simpl.
  destruct (memo_cleanData (hooks w1)) as [[d cd]|] eqn:E1.
  - destruct (areHookInputsEqual_cleanData _ d) eqn:Hit; simpl.
    + rewrite E1. rewrite <- E. eauto.
    + eauto 12.
  - simpl. eauto 12.
Qed.

Lemma cleanData_not_both xs ys data sid pointed scope gip :
  Forall not_both (cleanData xs ys data sid pointed scope gip).
Proof.
  apply Forall_forall. intros r Hr.
  apply elem_of_cleanData in Hr as (i & p & _ & _ & ->). unfold not_both. simpl.
  destruct (getIsHighlighted pointed _ scope); simpl; split; congruence.
Qed.

Lemma renders_memo_all (P : CleanDatum -> Prop) :
  (forall xs ys data sid pointed scope gip, Forall P (cleanData xs ys data sid pointed scope gip)) ->
  forall passes h, memo_all P h ->
  Forall (fun result => Forall P result.1) (renders h passes).
Proof.
  intros HP passes. induction passes as [|p later IH]; intros h Hh; simpl; [constructor|].
  unfold Scatter_run.
  pose proof (Scatter_cleanData_origin (pass_props p) (enter p h)) as [[d Hd] Ho].
  destruct (Scatter_cleanData (pass_props p) (enter p h)) as [cd w]. simpl in *.
  assert (Hcd : Forall P cd).
  { destruct Ho as [[d' Hd']|(xs & ys & data & sid & pointed & scope & gip & ->)].
    - eapply Hh, Hd'.
    - apply HP. }
  constructor; [exact Hcd|]. apply IH.
  intros d' cd' E. rewrite Hd in E. now injection E as _ <-.
Qed.

(** C8: no entry of [cleanData] is both highlighted and faded, a
    highlighted entry being never faded. This holds of what the callback
    computes, and of the entries used by every pass of every sequence of
    passes of an instance, recomputed or taken from the memo cell. *)
Theorem never_highlighted_and_faded :
  (forall xs ys data sid pointed scope gip,
     Forall (fun r => isHighlighted r && isFaded r = false
                      /\ (isHighlighted r = true -> isFaded r = false))
       (cleanData xs ys data sid pointed scope gip))
  /\ (forall passes,
        Forall (fun result =>
                  Forall (fun r => isHighlighted r && isFaded r = false
                                   /\ (isHighlighted r = true -> isFaded r = false))
                    result.1)
          (renders mount passes)).
Proof.
  split.
  - apply cleanData_not_both.
  - intros passes. apply (renders_memo_all not_both).
    + apply cleanData_not_both.
    + intros d cd [=].
Qed.

End Memo.

Section Passes.
Context {T : ImportedTypes} {I : Imports}.

Lemma hooks_inv_mount : hooks_inv [] mount.
Proof. split; intros ? ? [=]. Qed.

(** The first [useMemo] of a pass: the scope object it answers has the
    contents of the scope of that pass, whether it is the one of the cell
    or a new one. *)
Lemma highlightScope_memo seen h p :
  memo_highlightScope_inv seen h ->
  (forall q, q ∈ seen -> unmutated q p) ->
  forall o w,
    useMemo memo_highlightScope set_memo_highlightScope Object_is_nullable
      (bind (read heap) (fun heap_ =>
         new_HighlightScope
           (spread_highlightScope
              (partial_scopes heap_ <$> series_highlightScope (series (pass_props p))))))
      (series_highlightScope (series (pass_props p))) (enter p h) = (o, w) ->
    hs_val o = pass_highlightScope p
    /\ outside w = outside (enter p h)
    /\ memo_cleanData (hooks w) = memo_cleanData h
    /\ memo_highlightScope (hooks w) = Some (series_highlightScope (pass_series p), o)
    /\ hs_ref o < allocated (hooks w)
    /\ (hooks w = h \/ hs_ref o = allocated h).
Proof.
  intros Hinv Hcoh o w. unfold useMemo, bind, read, new_HighlightScope. simpl.
  destruct (memo_highlightScope h) as [[d1 o1]|] eqn:E1.
  - destruct (Object_is_nullable _ d1) eqn:Hit.
    + intros [= <- <-]. apply Object_is_nullable_eq in Hit.
      destruct (Hinv _ _ E1) as (Hlt & q & Hq & -> & Hval). simpl.
      repeat split; auto.
      * rewrite Hval. unfold pass_highlightScope. f_equal.
        apply (unmutated_highlightScope _ _ (Hcoh q Hq)). now symmetry.
      * rewrite E1. unfold pass_series. now rewrite Hit.
    + intros [= <- <-]. simpl. repeat split; auto.
  - intros [= <- <-]. simpl. repeat split; auto.
Qed.

(** One pass, from a hook state left by the passes [seen] that did not
    mutate what they share with this one: the entries it uses are the ones
    recomputed for it. *)
Lemma Scatter_run_recomputed seen h p :
  hooks_inv seen h ->
  (forall q, q ∈ seen -> unmutated q p) ->
  (Scatter_run (pass_props p) (enter p h)).1 = (recomputed_cleanData p, recomputed_output p)
  /\ hooks_inv (p :: seen) (hooks (Scatter_run (pass_props p) (enter p h)).2).
Proof.
  intros [Hinv1 Hinv2] Hcoh. unfold Scatter_run.
  destruct (Scatter_cleanData (pass_props p) (enter p h)) as [used w'] eqn:Hrun.
  cbn [fst snd]. unfold recomputed_output.
  enough (used = recomputed_cleanData p /\ hooks_inv (p :: seen) (hooks w'))
    as [-> ?] by auto.
  revert Hrun. unfold Scatter_cleanData. unfold bind at 1.
  destruct (useMemo memo_highlightScope _ _ _ _ (enter p h)) as [o w1] eqn:Hfirst.
  apply (highlightScope_memo seen h p Hinv1 Hcoh) in Hfirst
    as (Hval & Hout & Hcell2 & Hcell1 & Hlt & Hfresh).
  unfold outside in Hout. simpl in Hout. injection Hout as Hheap Hctx Henv.
  unfold bind, useContext_InteractionContext, read, call_useInteractionItemProps, ret.
  rewrite Hctx, Henv.
  unfold useMemo. rewrite Hcell2, Hheap, Hval. cbn [getter_ref getter_call].
  fold (pass_series p). fold (pass_skipInteractionHandlers p). fold (pass_item p).
  fold (pass_getInteractionItemProps p). fold (recomputed_cleanData p).
  set (deps := Build_cleanData_deps _ _ _ _ _ _ _).
  assert (Hdeps : deps_of p deps) by (constructor; reflexivity).
  assert (Hfirst : memo_highlightScope_inv (p :: seen) (hooks w1)).
  { intros d1 o1 E1. rewrite Hcell1 in E1. injection E1 as <- <-.
    split; [exact Hlt|]. exists p. split; [left|]. auto. }
  assert (Hmiss : hooks_inv (p :: seen)
            (hooks (set_hooks (set_memo_cleanData (Some (deps, recomputed_cleanData p))) w1))).
  { split; [exact Hfirst|]. intros d cd [= <- <-]. exists p.
    split; [left|]. split; [exact Hdeps|]. split; [reflexivity|].
    exists (series_highlightScope (pass_series p)), o. simpl. auto. }
  destruct (memo_cleanData h) as [[d2 cd]|] eqn:E2;
    [|intros [= <- <-]; split; [reflexivity|exact Hmiss]].
  destruct (areHookInputsEqual_cleanData deps d2) eqn:Hit;
    [|intros [= <- <-]; split; [reflexivity|exact Hmiss]].
  intros [= <- <-].
  destruct (Hinv2 _ _ E2) as (q & Hq & Hd & -> & d1' & o1' & E1' & Hle & Himp).
  unfold areHookInputsEqual_cleanData in Hit. rewrite !andb_true_iff in Hit.
  destruct Hit as [[[[[[Hx Hy] Hdata] Hid] Hitem] Hscope] Hfn].
  apply Object_is_loc_eq in Hx, Hy, Hdata, Hscope, Hfn.
  apply Object_is_Id_eq in Hid. apply Object_is_nullable_eq in Hitem.
  subst deps. simpl in Hx, Hy, Hdata, Hid, Hitem, Hscope, Hfn.
  destruct Hd as [Dx Dy Ddata Did Ditem Dfn].
  assert (Hsame : pass_highlightScope q = pass_highlightScope p).
  { destruct Hfresh as [Hh|Hh].
    - rewrite Hh, E1' in Hcell1. injection Hcell1 as _ ->.
      rewrite <- Hval. symmetry. apply Himp. congruence.
    - destruct (Hinv1 _ _ E1') as [Hlt' _]. lia. }
  pose proof (Hcoh q Hq) as U.
  assert (Hgip : pass_getInteractionItemProps q = pass_getInteractionItemProps p).
  { apply (unmutated_getInteractionItemProps _ _ U (dep_highlightScope d2) (hs_ref o)).
    - congruence.
    - intros _. exact Hsame. }
  split.
  - unfold recomputed_cleanData.
    rewrite Hgip, Hsame.
    rewrite (unmutated_xScale _ _ U) by congruence.
    rewrite (unmutated_yScale _ _ U) by congruence.
    rewrite (unmutated_data _ _ U) by congruence.
    rewrite (unmutated_item _ _ U) by congruence.
    f_equal. congruence.
  - split; [exact Hfirst|]. intros d cd E. rewrite Hcell2 in E. injection E as <- <-.
    exists q. split; [now right|]. split; [now constructor|]. split; [reflexivity|].
    exists (series_highlightScope (pass_series p)), o. split; [exact Hcell1|].
    split; [lia|]. intros _. congruence.
Qed.

Lemma renders_recomputed_from passes : forall seen h,
  hooks_inv seen h ->
  (forall q p, q ∈ seen ++ passes -> p ∈ passes -> unmutated q p) ->
  renders h passes = (fun p => (recomputed_cleanData p, recomputed_output p)) <$> passes.
Proof.
  induction passes as [|p later IH]; intros seen h Hinv Hcoh; [reflexivity|].
  simpl.
  destruct (Scatter_run_recomputed seen h p Hinv) as [Hres Hinv'].
  { intros q Hq. apply Hcoh; [apply elem_of_app; now left|left]. }
  destruct (Scatter_run (pass_props p) (enter p h)) as [result w]. simpl in Hres, Hinv'.
  subst result. f_equal. apply (IH (p :: seen)); [exact Hinv'|].
  intros q p' Hq Hp'. apply Hcoh; [|now right].
  apply elem_of_app. apply elem_of_app in Hq as [Hq|Hq].
  - apply elem_of_cons in Hq as [->|Hq]; [right; left|now left].
  - right. now right.
Qed.

Lemma renders_recomputed passes :
  coherent passes ->
  renders mount passes = (fun p => (recomputed_cleanData p, recomputed_output p)) <$> passes.
Proof.
  intros Hcoh. apply (renders_recomputed_from passes []); [apply hooks_inv_mount|].
  intros q p. simpl. apply Hcoh.
Qed.

Lemma renders_lookup passes i p result :
  coherent passes ->
  passes !! i = Some p ->
  renders mount passes !! i = Some result ->
  result = (recomputed_cleanData p, recomputed_output p).
Proof.
  intros Hcoh Hp Hres. rewrite (renders_recomputed _ Hcoh), list_lookup_fmap, Hp in Hres.
  now injection Hres.
Qed.

(** C7: in a sequence of passes of one instance, between which no object
    was mutated while it kept its identity, the entries each pass uses and
    the element it returns are the entries recomputed from the scales, the
    series and the interaction context of that pass, and the element made
    of them: the two memo cells never answer with entries of stale
    inputs. *)
Theorem memoization_is_transparent passes :
  coherent passes ->
  renders mount passes = (fun p => (recomputed_cleanData p, recomputed_output p)) <$> passes.
Proof. apply renders_recomputed. Qed.

Lemma cleanData_entry_ext xs xs' ys ys' sid pointed scope gip i p :
  getValueToPositionMapper xs = getValueToPositionMapper xs' ->
  range xs = range xs' ->
  getValueToPositionMapper ys = getValueToPositionMapper ys' ->
  range ys = range ys' ->
  cleanData_entry xs ys sid pointed scope gip i p
  = cleanData_entry xs' ys' sid pointed scope gip i p.
Proof. intros Hx Hrx Hy Hry. unfold cleanData_entry. now rewrite Hx, Hrx, Hy, Hry. Qed.

Lemma cleanData_ext xs xs' ys ys' data sid pointed scope gip :
  getValueToPositionMapper xs = getValueToPositionMapper xs' ->
  range xs = range xs' ->
  getValueToPositionMapper ys = getValueToPositionMapper ys' ->
  range ys = range ys' ->
  cleanData xs ys data sid pointed scope gip = cleanData xs' ys' data sid pointed scope gip.
Proof.
  intros Hx Hrx Hy Hry. rewrite !cleanData_omap. f_equal.
  apply imap_ext. intros i p _. now apply cleanData_entry_ext.
Qed.

Lemma recomputed_cleanData_same_inputs p1 p2 :
  same_inputs p1 p2 -> recomputed_cleanData p1 = recomputed_cleanData p2.
Proof.
  intros S. unfold recomputed_cleanData, pass_getInteractionItemProps,
    pass_skipInteractionHandlers, pass_highlightScope.
  rewrite (same_data _ _ S), (same_series_id _ _ S), (same_highlightScope _ _ S),
    (same_disableHover _ _ S), (same_item _ _ S), (same_useVoronoiInteraction _ _ S),
    (same_hookEnv _ _ S).
  apply cleanData_ext; apply S.
Qed.

(** C3: take two passes, each in a sequence of passes where no object was
    mutated while it kept its identity. When the two passes have equal
    scales, equal series and equal interaction contexts, they use equal
    entries: the same positions, highlighted and faded flags and
    interaction props, in the same order. The marker size, the color, the
    click callback, the identities of the objects and what the earlier
    passes of either sequence were do not count. *)
Theorem visual_state_is_determined passes1 passes2 i j p1 p2 result1 result2 :
  coherent passes1 ->
  coherent passes2 ->
  passes1 !! i = Some p1 ->
  passes2 !! j = Some p2 ->
  same_inputs p1 p2 ->
  renders mount passes1 !! i = Some result1 ->
  renders mount passes2 !! j = Some result2 ->
  result1.1 = result2.1.
Proof.
  intros C1 C2 H1 H2 S R1 R2.
  rewrite (renders_lookup _ _ _ _ C1 H1 R1), (renders_lookup _ _ _ _ C2 H2 R2).
  simpl. now apply recomputed_cleanData_same_inputs.
Qed.


End Passes.

(** * More on the component *)

Section NumberOrder.

Lemma SFcompare_rank f g :
  match SFcompare f g with
  | None => SFrank f = None \/ SFrank g = None
  | Some c =>
      exists a b, SFrank f = Some a /\ SFrank g = Some b
        /\ match c with
           | Eq => a = b
           | Lt => lex_lt a b
           | Gt => lex_lt b a
           end
  end.
Proof.
  destruct f as [[]|[]| |[] m e], g as [[]|[]| |[] m' e']; simpl; auto;
    try (do 2 eexists; split; [reflexivity|]; split; [reflexivity|];
         first [reflexivity | unfold lex_lt; simpl; lia]).
  - do 2 eexists; split; [reflexivity|]; split; [reflexivity|].
    change (Pos.compare_cont Eq m m') with (Pos.compare m m').
    destruct (Z.compare_spec e e'), (Pos.compare_spec m m'); simpl; unfold lex_lt; simpl;
      try lia; congruence.
  - do 2 eexists; split; [reflexivity|]; split; [reflexivity|].
    change (Pos.compare_cont Eq m m') with (Pos.compare m m').
    destruct (Z.compare_spec e e'), (Pos.compare_spec m m'); simpl; unfold lex_lt; simpl;
      try lia; congruence.
Qed.

Lemma js_le_rank a b :
  js_le a b = true <-> exists u v, rank a = Some u /\ rank b = Some v /\ lex_le u v.
Proof.
  unfold js_le, rank. rewrite FloatAxioms.leb_spec. unfold SFleb.
  pose proof (SFcompare_rank (Prim2SF a) (Prim2SF b)) as H.
  destruct (SFcompare (Prim2SF a) (Prim2SF b)) as [[]|].
  - destruct H as (u & v & -> & -> & ->). split; [|reflexivity]. intros _.
    exists v, v. unfold lex_le. repeat split; lia.
  - destruct H as (u & v & -> & -> & L). split; [|reflexivity]. intros _.
    exists u, v. unfold lex_le, lex_lt in *. repeat split; lia.
  - destruct H as (u & v & -> & -> & L). split; [discriminate|].
    intros (u' & v' & [= <-] & [= <-] & L'). unfold lex_le, lex_lt in *. lia.
  - split; [discriminate|]. intros (u & v & Hu & Hv & _). destruct H; congruence.
Qed.

Lemma js_lt_rank a b :
  js_lt a b = true <-> exists u v, rank a = Some u /\ rank b = Some v /\ lex_lt u v.
Proof.
  unfold js_lt, rank. rewrite FloatAxioms.ltb_spec. unfold SFltb.
  pose proof (SFcompare_rank (Prim2SF a) (Prim2SF b)) as H.
  destruct (SFcompare (Prim2SF a) (Prim2SF b)) as [[]|].
  - destruct H as (u & v & -> & -> & ->). split; [discriminate|].
    intros (u' & v' & [= <-] & [= <-] & L'). unfold lex_lt in *. lia.
  - destruct H as (u & v & -> & -> & L). split; [|reflexivity]. intros _. eauto.
  - destruct H as (u & v & -> & -> & L). split; [discriminate|].
    intros (u' & v' & [= <-] & [= <-] & L'). unfold lex_lt in *. lia.
  - split; [discriminate|]. intros (u & v & Hu & Hv & _). destruct H; congruence.
Qed.

Lemma is_nan_rank a : is_nan a = true <-> rank a = None.
Proof.
  unfold is_nan, rank. rewrite FloatAxioms.eqb_spec. unfold SFeqb.
  pose proof (SFcompare_rank (Prim2SF a) (Prim2SF a)) as H.
  destruct (SFcompare (Prim2SF a) (Prim2SF a)) as [[]|]; simpl.
  - destruct H as (u & v & -> & _). split; discriminate.
  - destruct H as (u & v & Hu & Hv & L). rewrite Hu in Hv. injection Hv as <-.
    unfold lex_lt in L. lia.
  - destruct H as (u & v & Hu & Hv & L). rewrite Hu in Hv. injection Hv as <-.
    unfold lex_lt in L. lia.
  - split; [|reflexivity]. intros _. tauto.
Qed.

Lemma rank_infinity : rank infinity = Some (2, 0, 0)%Z.
Proof. reflexivity. Qed.
Lemma rank_neg_infinity : rank neg_infinity = Some (-2, 0, 0)%Z.
Proof. reflexivity. Qed.
Lemma rank_nan : rank nan = None.
Proof. reflexivity. Qed.

Lemma rank_bounds n u : rank n = Some u -> lex_le (-2, 0, 0)%Z u /\ lex_le u (2, 0, 0)%Z.
Proof.
  unfold rank. destruct (Prim2SF n) as [[]|[]| |[] m e]; simpl; intros [= <-];
    unfold lex_le; simpl; lia.
Qed.

Lemma is_nan_false_rank a : is_nan a = false <-> exists u, rank a = Some u.
Proof.
  split.
  - intros Hn. destruct (rank a) as [u|] eqn:E; [eauto|].
    apply is_nan_rank in E. congruence.
  - intros [u Hu]. destruct (is_nan a) eqn:E; [|reflexivity].
    apply is_nan_rank in E. congruence.
Qed.

Lemma js_le_trans a b c : js_le a b = true -> js_le b c = true -> js_le a c = true.
Proof.
  rewrite !js_le_rank. intros (u & v & Hu & Hv & L) (v' & w & Hv' & Hw & L').
  rewrite Hv in Hv'. injection Hv' as <-. exists u, w.
  repeat split; auto. unfold lex_le in *. lia.
Qed.

Lemma js_le_refl a : is_nan a = false -> js_le a a = true.
Proof.
  intros [u Hu]%is_nan_false_rank. apply js_le_rank. exists u, u.
  repeat split; auto. unfold lex_le. lia.
Qed.

Lemma js_lt_le a b : js_lt a b = true -> js_le a b = true.
Proof.
  rewrite js_lt_rank, js_le_rank. intros (u & v & Hu & Hv & L). exists u, v.
  repeat split; auto. unfold lex_le, lex_lt in *. lia.
Qed.

Lemma js_le_total a b :
  is_nan a = false -> is_nan b = false -> js_lt a b = false -> js_le b a = true.
Proof.
  intros [u Hu]%is_nan_false_rank [v Hv]%is_nan_false_rank Hlt.
  apply js_le_rank. exists v, u. repeat split; auto.
  destruct (decide (lex_le v u)) as [|N]; [assumption|].
  assert (js_lt a b = true); [|congruence].
  apply js_lt_rank. exists u, v. repeat split; auto.
  unfold lex_le, lex_lt in *. lia.
Qed.

Lemma js_le_nan_l a b : is_nan a = true -> js_le a b = false.
Proof.
  intros Ha%is_nan_rank. apply not_true_is_false. rewrite js_le_rank.
  intros (u & v & Hu & _). congruence.
Qed.

Lemma js_le_nan_r a b : is_nan b = true -> js_le a b = false.
Proof.
  intros Hb%is_nan_rank. apply not_true_is_false. rewrite js_le_rank.
  intros (u & v & _ & Hv & _). congruence.
Qed.

Lemma js_le_infinity a : is_nan a = false -> js_le a infinity = true.
Proof.
  intros [u Hu]%is_nan_false_rank. apply js_le_rank. exists u, (2, 0, 0)%Z.
  repeat split; auto. now apply (rank_bounds a).
Qed.

Lemma js_le_neg_infinity a : is_nan a = false -> js_le neg_infinity a = true.
Proof.
  intros [u Hu]%is_nan_false_rank. apply js_le_rank. exists (-2, 0, 0)%Z, u.
  repeat split; auto. now apply (rank_bounds a).
Qed.

Lemma js_le_is_nan a b : js_le a b = true -> is_nan a = false /\ is_nan b = false.
Proof.
  rewrite js_le_rank, !is_nan_false_rank. intros (u & v & Hu & Hv & _). eauto.
Qed.

Lemma is_zero_rank a : is_zero a = true -> rank a = Some (0, 0, 0)%Z.
Proof.
  unfold is_zero, rank. rewrite FloatAxioms.eqb_spec. unfold SFeqb.
  pose proof (SFcompare_rank (Prim2SF a) (Prim2SF zero)) as H.
  destruct (SFcompare (Prim2SF a) (Prim2SF zero)) as [[]|]; try discriminate.
  destruct H as (u & v & -> & Hv & ->). intros _. rewrite <- Hv. reflexivity.
Qed.

Lemma js_le_zeros a b : is_zero a = true -> is_zero b = true -> js_le a b = true.
Proof.
  intros Ha%is_zero_rank Hb%is_zero_rank. apply js_le_rank.
  exists (0, 0, 0)%Z, (0, 0, 0)%Z. repeat split; auto. unfold lex_le. simpl. lia.
Qed.

End NumberOrder.

Section MathBounds.

Lemma min_from_nan l : forall lowest,
  Exists (fun n => is_nan n = true) l -> Math.min_from lowest l = nan.
Proof.
  induction l as [|n rest IH]; intros lowest E; [now apply Exists_nil in E|].
  simpl. destruct (is_nan n) eqn:Hn; [reflexivity|].
  apply Exists_cons in E as [E|E]; [congruence|].
  destruct (_ && _); [|destruct (js_lt n lowest)]; now apply IH.
Qed.

Lemma max_from_nan l : forall highest,
  Exists (fun n => is_nan n = true) l -> Math.max_from highest l = nan.
Proof.
  induction l as [|n rest IH]; intros highest E; [now apply Exists_nil in E|].
  simpl. destruct (is_nan n) eqn:Hn; [reflexivity|].
  apply Exists_cons in E as [E|E]; [congruence|].
  destruct (_ && _); [|destruct (js_lt highest n)]; now apply IH.
Qed.

(** Over values none of which is NaN, [Math.min] answers the start value
    or one of the values, below the start value and below each of them. *)
Lemma min_from_spec l : forall lowest,
  is_nan lowest = false ->
  Forall (fun n => is_nan n = false) l ->
  is_nan (Math.min_from lowest l) = false
  /\ (Math.min_from lowest l = lowest \/ Math.min_from lowest l ∈ l)
  /\ js_le (Math.min_from lowest l) lowest = true
  /\ Forall (fun m => js_le (Math.min_from lowest l) m = true) l.
Proof.
  induction l as [|n rest IH]; intros lowest Hlo Hl; simpl.
  - repeat split; auto using js_le_refl.
  - apply Forall_cons in Hl as [Hn Hrest]. rewrite Hn.
    destruct (Math.is_neg_zero n && Math.is_pos_zero lowest) eqn:Hz;
      [|destruct (js_lt n lowest) eqn:Hlt].
    + destruct (IH n Hn Hrest) as (Hr & Hin & Hle & Hall).
      apply andb_true_iff in Hz as [Hzn Hzl].
      apply andb_true_iff in Hzn as [Hzn _]. apply andb_true_iff in Hzl as [Hzl _].
      split; [exact Hr|]. split; [|split].
      * right. destruct Hin as [->|Hin]; [left|now right].
      * eapply js_le_trans; [exact Hle|]. now apply js_le_zeros.
      * apply Forall_cons. auto.
    + destruct (IH n Hn Hrest) as (Hr & Hin & Hle & Hall).
      split; [exact Hr|]. split; [|split].
      * right. destruct Hin as [->|Hin]; [left|now right].
      * eapply js_le_trans; [exact Hle|]. now apply js_lt_le.
      * apply Forall_cons. auto.
    + destruct (IH lowest Hlo Hrest) as (Hr & Hin & Hle & Hall).
      split; [exact Hr|]. split; [|split; [exact Hle|]].
      * destruct Hin as [->|Hin]; [now left|right; now right].
      * apply Forall_cons. split; [|exact Hall].
        eapply js_le_trans; [exact Hle|]. now apply js_le_total.
Qed.

(** Over values none of which is NaN, [Math.max] answers the start value
    or one of the values, above the start value and above each of them. *)
Lemma max_from_spec l : forall highest,
  is_nan highest = false ->
  Forall (fun n => is_nan n = false) l ->
  is_nan (Math.max_from highest l) = false
  /\ (Math.max_from highest l = highest \/ Math.max_from highest l ∈ l)
  /\ js_le highest (Math.max_from highest l) = true
  /\ Forall (fun m => js_le m (Math.max_from highest l) = true) l.
Proof.
  induction l as [|n rest IH]; intros highest Hhi Hl; simpl.
  - repeat split; auto using js_le_refl.
  - apply Forall_cons in Hl as [Hn Hrest]. rewrite Hn.
    destruct (Math.is_pos_zero n && Math.is_neg_zero highest) eqn:Hz;
      [|destruct (js_lt highest n) eqn:Hlt].
    + destruct (IH n Hn Hrest) as (Hr & Hin & Hle & Hall).
      apply andb_true_iff in Hz as [Hzn Hzh].
      apply andb_true_iff in Hzn as [Hzn _]. apply andb_true_iff in Hzh as [Hzh _].
      split; [exact Hr|]. split; [|split].
      * right. destruct Hin as [->|Hin]; [left|now right].
      * eapply js_le_trans; [|exact Hle]. now apply js_le_zeros.
      * apply Forall_cons. auto.
    + destruct (IH n Hn Hrest) as (Hr & Hin & Hle & Hall).
      split; [exact Hr|]. split; [|split].
      * right. destruct Hin as [->|Hin]; [left|now right].
      * eapply js_le_trans; [|exact Hle]. now apply js_lt_le.
      * apply Forall_cons. auto.
    + destruct (IH highest Hhi Hrest) as (Hr & Hin & Hle & Hall).
      split; [exact Hr|]. split; [|split; [exact Hle|]].
      * destruct Hin as [->|Hin]; [now left|right; now right].
      * apply Forall_cons. split; [|exact Hall].
        eapply js_le_trans; [|exact Hle]. now apply js_le_total.
Qed.

(** A position is between [Math.min] and [Math.max] of values none of
    which is NaN exactly when it is between two of them. *)
Lemma between_min_max l x :
  Forall (fun n => is_nan n = false) l ->
  (js_le (Math.min l) x = true /\ js_le x (Math.max l) = true)
  <-> exists lo hi, lo ∈ l /\ hi ∈ l /\ js_le lo x = true /\ js_le x hi = true.
Proof.
  intros Hl. unfold Math.min, Math.max.
  destruct (min_from_spec l infinity eq_refl Hl) as (_ & Hmin & _ & Hlow).
  destruct (max_from_spec l neg_infinity eq_refl Hl) as (_ & Hmax & _ & Hhigh).
  rewrite Forall_forall in Hlow, Hhigh. split.
  - intros [Hlo Hhi]. destruct (js_le_is_nan _ _ Hlo) as [_ Hx].
    destruct l as [|m l'].
    + simpl in Hlo, Hhi. pose proof (js_le_trans _ _ _ Hlo Hhi) as F. discriminate F.
    + assert (exists lo, lo ∈ m :: l' /\ js_le lo x = true) as (lo & Hlo1 & Hlo2).
      { destruct Hmin as [E|Hin]; [|eauto]. exists m. split; [left|].
        rewrite E in Hlo. eapply js_le_trans; [|exact Hlo].
        apply js_le_infinity. apply Forall_cons in Hl. tauto. }
      assert (exists hi, hi ∈ m :: l' /\ js_le x hi = true) as (hi & Hhi1 & Hhi2).
      { destruct Hmax as [E|Hin]; [|eauto]. exists m. split; [left|].
        rewrite E in Hhi. eapply js_le_trans; [exact Hhi|].
        apply js_le_neg_infinity. apply Forall_cons in Hl. tauto. }
      eauto 8.
  - intros (lo & hi & Hlo & Hhi & L1 & L2). split.
    + eapply js_le_trans; [|exact L1]. auto.
    + eapply js_le_trans; [exact L2|]. auto.
Qed.

(** With a NaN among the values, nothing is between [Math.min] and
    [Math.max]. *)
Lemma between_min_max_nan l x :
  Exists (fun n => is_nan n = true) l ->
  js_le (Math.min l) x = false /\ js_le x (Math.max l) = false.
Proof.
  intros E. unfold Math.min, Math.max.
  rewrite (min_from_nan l _ E), (max_from_nan l _ E).
  split; [now apply js_le_nan_l|now apply js_le_nan_r].
Qed.

(** Lists with the same values have the same interval. *)
Lemma between_min_max_same_values l l' x :
  (forall m, m ∈ l <-> m ∈ l') ->
  js_le (Math.min l) x && js_le x (Math.max l)
  = js_le (Math.min l') x && js_le x (Math.max l').
Proof.
  intros Hsame.
  destruct (decide (Exists (fun n => is_nan n = true) l)) as [E|N].
  - assert (E' : Exists (fun n => is_nan n = true) l').
    { apply Exists_exists in E as (n & Hn & Hnan). apply Exists_exists.
      exists n. split; [now apply Hsame|assumption]. }
    destruct (between_min_max_nan l x E) as [-> _].
    destruct (between_min_max_nan l' x E') as [-> _]. reflexivity.
  - assert (F : Forall (fun n => is_nan n = false) l).
    { apply Forall_forall. intros n Hn. apply not_true_is_false. intros Hnan.
      apply N, Exists_exists. eauto. }
    assert (F' : Forall (fun n => is_nan n = false) l').
    { rewrite Forall_forall in *. intros n Hn. apply F. now apply Hsame. }
    pose proof (between_min_max l x F) as B. pose proof (between_min_max l' x F') as B'.
    apply eq_true_iff_eq. rewrite !andb_true_iff, B, B'.
    split; intros (lo & hi & Hlo & Hhi & L); exists lo, hi;
      (split; [now apply Hsame|split; [now apply Hsame|exact L]]).
Qed.

End MathBounds.

Section Visibility.
Context {T : ImportedTypes} {I : Imports}.
Variables (xs ys : D3Scale) (data : list ScatterValueType) (sid : Id).
Variables (pointed : option ItemData) (scope : HighlightScope).
Variable gip : ScatterItemIdentifier -> gmap string PropValue.

Lemma inRange_visible p : inRange xs ys p = true <-> visible xs ys p.
Proof. apply isInRange_visible. Qed.

Lemma cleanData_entry_inRange i p :
  cleanData_entry xs ys sid pointed scope gip i p
  = if inRange xs ys p then Some (entry_of xs ys sid pointed scope gip i p) else None.
Proof. reflexivity. Qed.

Lemma has_entry_iff_visible i p :
  data !! i = Some p ->
  (exists r, r ∈ cleanData xs ys data sid pointed scope gip /\ cd_dataIndex r = i)
  <-> visible xs ys p.
Proof.
  intros Hp. split.
  - intros (r & Hr & Hi). apply elem_of_cleanData in Hr as (j & q & Hq & V & ->).
    simpl in Hi. subst j. congruence.
  - intros V. exists (entry_of xs ys sid pointed scope gip i p). split; [|reflexivity].
    apply elem_of_cleanData. eauto.
Qed.

Lemma cleanData_nil :
  (forall p, p ∈ data -> ~ visible xs ys p) ->
  cleanData xs ys data sid pointed scope gip = [].
Proof.
  intros Hnone. destruct (cleanData xs ys data sid pointed scope gip) as [|r l] eqn:E;
    [reflexivity|].
  assert (Hr : r ∈ cleanData xs ys data sid pointed scope gip) by (rewrite E; left).
  apply elem_of_cleanData in Hr as (i & p & Hp & V & _).
  destruct (Hnone p); [|assumption]. eapply list_elem_of_lookup_2, Hp.
Qed.

(** X1: when no value of the two ranges is NaN, the point at index [i]
    gets an entry exactly when its x position lies between two values of
    [xScale.range()] and its y position between two values of
    [yScale.range()], those values included. *)
Theorem cleanData_entry_iff_between (i : nat) (p : ScatterValueType) :
  data !! i = Some p ->
  Forall (fun n => is_nan n = false) (range xs) ->
  Forall (fun n => is_nan n = false) (range ys) ->
  let x := getValueToPositionMapper xs (sv_x p) in
  let y := getValueToPositionMapper ys (sv_y p) in
  (exists r, r ∈ cleanData xs ys data sid pointed scope gip /\ cd_dataIndex r = i)
  <-> ((exists lo hi, lo ∈ range xs /\ hi ∈ range xs
                      /\ js_le lo x = true /\ js_le x hi = true)
       /\ (exists lo hi, lo ∈ range ys /\ hi ∈ range ys
                         /\ js_le lo y = true /\ js_le y hi = true)).
Proof.
  intros Hp Fx Fy x y. rewrite (has_entry_iff_visible i p Hp).
  rewrite <- (between_min_max _ x Fx), <- (between_min_max _ y Fy).
  unfold visible. fold x y. tauto.
Qed.

(** X2: with a range that has no value, on either axis, [cleanData] is
    empty whatever the data: [Math.min()] is +Infinity and [Math.max()] is
    -Infinity, and no position is between the two. *)
Theorem cleanData_empty_range :
  range xs = [] \/ range ys = [] ->
  cleanData xs ys data sid pointed scope gip = [].
Proof.
  intros Hempty. apply cleanData_nil. intros p _ (X1 & X2 & Y1 & Y2).
  destruct Hempty as [E|E]; rewrite E in *.
  - pose proof (js_le_trans _ _ _ X1 X2) as F. discriminate F.
  - pose proof (js_le_trans _ _ _ Y1 Y2) as F. discriminate F.
Qed.

(** X3: with a NaN among the values of a range, on either axis,
    [cleanData] is empty whatever the data. *)
Theorem cleanData_NaN_range :
  Exists (fun n => is_nan n = true) (range xs)
  \/ Exists (fun n => is_nan n = true) (range ys) ->
  cleanData xs ys data sid pointed scope gip = [].
Proof.
  intros Hnan. apply cleanData_nil. intros p _ (X1 & X2 & Y1 & Y2).
  destruct Hnan as [E|E].
  - destruct (between_min_max_nan _ (getValueToPositionMapper xs (sv_x p)) E). congruence.
  - destruct (between_min_max_nan _ (getValueToPositionMapper ys (sv_y p)) E). congruence.
Qed.

(** X4: a point that a scale maps to NaN gets no entry, whatever the
    ranges. *)
Theorem cleanData_NaN_position (i : nat) (p : ScatterValueType) :
  data !! i = Some p ->
  is_nan (getValueToPositionMapper xs (sv_x p)) = true
  \/ is_nan (getValueToPositionMapper ys (sv_y p)) = true ->
  ~ exists r, r ∈ cleanData xs ys data sid pointed scope gip /\ cd_dataIndex r = i.
Proof.
  intros Hp Hnan. rewrite (has_entry_iff_visible i p Hp).
  intros (X1 & _ & Y1 & _). destruct Hnan as [N|N].
  - rewrite (js_le_nan_r _ _ N) in X1. discriminate.
  - rewrite (js_le_nan_r _ _ N) in Y1. discriminate.
Qed.

End Visibility.

Section RangeOrder.
Context {T : ImportedTypes} {I : Imports}.

(** X5: only the values of a range count, not their order nor how often
    each occurs: two pairs of scales that map values to the same positions
    and whose ranges have the same values give the same [cleanData]. In
    particular a range may be given from high to low. *)
Theorem cleanData_same_range_values xs xs' ys ys' data sid pointed scope gip :
  getValueToPositionMapper xs = getValueToPositionMapper xs' ->
  getValueToPositionMapper ys = getValueToPositionMapper ys' ->
  (forall m, m ∈ range xs <-> m ∈ range xs') ->
  (forall m, m ∈ range ys <-> m ∈ range ys') ->
  cleanData xs ys data sid pointed scope gip = cleanData xs' ys' data sid pointed scope gip.
Proof.
  intros Hx Hy Rx Ry. rewrite !cleanData_omap. f_equal.
  apply imap_ext. intros i p _. rewrite !cleanData_entry_inRange.
  assert (E : inRange xs ys p = inRange xs' ys' p).
  { unfold inRange, isInRange, js_ge. rewrite <- Hx, <- Hy.
    rewrite <- !andb_assoc.
    rewrite (andb_assoc (js_le (Math.min (range xs)) _)).
    rewrite (andb_assoc (js_le (Math.min (range xs')) _)).
    rewrite (between_min_max_same_values _ _ _ Rx).
    rewrite (between_min_max_same_values _ _ _ Ry). reflexivity. }
  rewrite E. unfold entry_of. now rewrite Hx, Hy.
Qed.

End RangeOrder.

Section Shape.
Context {T : ImportedTypes} {I : Imports}.
Variables (xs ys : D3Scale) (sid : Id).
Variables (pointed : option ItemData) (scope : HighlightScope).
Variable gip : ScatterItemIdentifier -> gmap string PropValue.

Local Abbreviation entry := (cleanData_entry xs ys sid pointed scope gip).

Lemma omap_entries_filter (l : list ScatterValueType) : forall k,
  (fun r => (cd_dataIndex r, cd_id r)) <$> omap id (imap (fun j => entry (k + j)) l)
  = (fun ip => (ip.1, sv_id ip.2))
      <$> filter (fun ip => inRange xs ys ip.2 = true) (imap (fun j q => (k + j, q)) l).
Proof.
  induction l as [|q l IH]; intros k; [reflexivity|].
  rewrite !imap_cons.
  rewrite (imap_ext (_ ∘ S) (fun j => entry (S k + j)) l)
    by (intros; simpl; f_equal; lia).
  rewrite (imap_ext (_ ∘ S) (fun j q => (S k + j, q)) l)
    by (intros; simpl; f_equal; lia).
  rewrite filter_cons. simpl. rewrite cleanData_entry_inRange.
  destruct (inRange xs ys q) eqn:E; simpl.
  - f_equal. exact (IH (S k)).
  - exact (IH (S k)).
Qed.

Lemma omap_entries_length (l : list ScatterValueType) : forall k,
  length (omap id (imap (fun j => entry (k + j)) l))
  = length (filter (fun p => inRange xs ys p = true) l).
Proof.
  induction l as [|q l IH]; intros k; [reflexivity|].
  rewrite imap_cons, filter_cons.
  rewrite (imap_ext (_ ∘ S) (fun j => entry (S k + j)) l)
    by (intros; simpl; f_equal; lia).
  simpl. rewrite cleanData_entry_inRange.
  destruct (inRange xs ys q) eqn:E; simpl.
  - f_equal. exact (IH (S k)).
  - exact (IH (S k)).
Qed.

(** X6: [cleanData] is the data filtered by the range test: its entries,
    read as (index, id) pairs, are the points that pass the test, each with
    the index it has in the data, in the order of the data. There are as
    many entries as points that pass. *)
Theorem cleanData_is_filter data :
  (fun r => (cd_dataIndex r, cd_id r)) <$> cleanData xs ys data sid pointed scope gip
  = (fun ip => (ip.1, sv_id ip.2))
      <$> filter (fun ip => inRange xs ys ip.2 = true) (imap pair data)
  /\ length (cleanData xs ys data sid pointed scope gip)
     = length (filter (fun p => inRange xs ys p = true) data).
Proof.
  split.
  - rewrite cleanData_omap. apply (omap_entries_filter data 0).
  - rewrite cleanData_omap. apply (omap_entries_length data 0).
Qed.

Lemma omap_entries_sorted (l : list ScatterValueType) : forall k,
  StronglySorted lt (cd_dataIndex <$> omap id (imap (fun j => entry (k + j)) l))
  /\ Forall (fun i => k <= i) (cd_dataIndex <$> omap id (imap (fun j => entry (k + j)) l)).
Proof.
  induction l as [|q l IH]; intros k; [split; constructor|].
  rewrite imap_cons.
  rewrite (imap_ext (_ ∘ S) (fun j => entry (S k + j)) l)
    by (intros; simpl; f_equal; lia).
  destruct (IH (S k)) as [Hs Hb]. simpl. rewrite cleanData_entry_inRange.
  destruct (inRange xs ys q); simpl.
  - rewrite Nat.add_0_r. split.
    + constructor; [exact Hs|]. eapply Forall_impl; [exact Hb|]. simpl. lia.
    + constructor; [lia|]. eapply Forall_impl; [exact Hb|]. simpl. lia.
  - split; [exact Hs|]. eapply Forall_impl; [exact Hb|]. simpl. lia.
Qed.

(** X7: along [cleanData] the indices [dataIndex] grow strictly: no point
    of the data has two entries, and the entries come in the order of the
    points. *)
Theorem cleanData_dataIndex_increasing data :
  StronglySorted lt (cd_dataIndex <$> cleanData xs ys data sid pointed scope gip)
  /\ NoDup (cd_dataIndex <$> cleanData xs ys data sid pointed scope gip).
Proof.
  assert (S : StronglySorted lt (cd_dataIndex <$> cleanData xs ys data sid pointed scope gip)).
  { rewrite cleanData_omap. apply (omap_entries_sorted data 0). }
  split; [exact S|]. revert S.
  generalize (cd_dataIndex <$> cleanData xs ys data sid pointed scope gip).
  induction 1 as [|i l Hs IH Hall]; constructor; [|exact IH].
  intros Hin. rewrite Forall_forall in Hall. specialize (Hall i Hin). lia.
Qed.

(** X8: when every point of the data passes the range test, nothing is
    dropped: [cleanData] has one entry for each point, at the position of
    the point, with the index of the point. *)
Theorem cleanData_all_in_range data :
  Forall (fun p => inRange xs ys p = true) data ->
  cleanData xs ys data sid pointed scope gip
  = imap (entry_of xs ys sid pointed scope gip) data
  /\ length (cleanData xs ys data sid pointed scope gip) = length data
  /\ cd_dataIndex <$> cleanData xs ys data sid pointed scope gip = seq 0 (length data).
Proof.
  intros Hall.
  assert (E : cleanData xs ys data sid pointed scope gip
              = imap (entry_of xs ys sid pointed scope gip) data).
  { rewrite cleanData_omap.
    assert (G : forall k, Forall (fun p => inRange xs ys p = true) data ->
              omap id (imap (fun j => entry (k + j)) data)
              = imap (fun j => entry_of xs ys sid pointed scope gip (k + j)) data).
    { clear. induction data as [|q l IH]; intros k Hall; [reflexivity|].
      apply Forall_cons in Hall as [Hq Hl]. rewrite !imap_cons. simpl.
      rewrite cleanData_entry_inRange, Hq. simpl. f_equal.
      rewrite (imap_ext (_ ∘ S) (fun j => entry (S k + j)) l)
        by (intros; simpl; f_equal; lia).
      rewrite (imap_ext (_ ∘ S)
                 (fun j => entry_of xs ys sid pointed scope gip (S k + j)) l)
        by (intros; simpl; f_equal; lia).
      now apply IH. }
    apply (G 0 Hall). }
  split; [exact E|]. split.
  - now rewrite E, length_imap.
  - rewrite E, fmap_imap.
    rewrite (imap_ext _ (fun j _ => j) data) by reflexivity.
    rewrite (imap_seq_0 data (fun j => j)). apply list_fmap_id.
Qed.

(** X9: the entries of a data array followed by more points are the
    entries of the array, followed by what the loop pushes for the added
    points, counted from the length of the array. Points added at the end
    leave the entries of the points before them as they were. *)
Theorem cleanData_app data more :
  cleanData xs ys (data ++ more) sid pointed scope gip
  = cleanData xs ys data sid pointed scope gip
    ++ cleanData_loop xs ys sid pointed scope gip (length data) more []
  /\ cleanData xs ys data sid pointed scope gip
     `prefix_of` cleanData xs ys (data ++ more) sid pointed scope gip.
Proof.
  assert (E : cleanData xs ys (data ++ more) sid pointed scope gip
              = cleanData xs ys data sid pointed scope gip
                ++ cleanData_loop xs ys sid pointed scope gip (length data) more []).
  { rewrite !cleanData_omap, cleanData_loop_omap. simpl.
    rewrite imap_app, omap_app. reflexivity. }
  split; [exact E|]. rewrite E. now apply prefix_app_r.
Qed.

(** X10: the keys of the circles of the group are the ids of the entries
    turned into strings, in order. When the ids of the points of the data,
    turned into strings, are pairwise distinct, so are the keys of the
    circles. (Distinct ids are not enough: a number and the string of its
    digits make one key.) *)
Theorem Scatter_return_keys_NoDup props data :
  NoDup (key_string <$> (sv_id <$> data)) ->
  key <$> children (Scatter_return props (cleanData xs ys data sid pointed scope gip))
  = key_string <$> (cd_id <$> cleanData xs ys data sid pointed scope gip)
  /\ NoDup (key <$> children
              (Scatter_return props (cleanData xs ys data sid pointed scope gip))).
Proof.
  intros Hids.
  assert (K : key <$> children
                (Scatter_return props (cleanData xs ys data sid pointed scope gip))
              = key_string <$> (cd_id <$> cleanData xs ys data sid pointed scope gip)).
  { unfold Scatter_return, children. rewrite <- !list_fmap_compose. reflexivity. }
  split; [exact K|]. rewrite K.
  apply (sublist_NoDup _ (key_string <$> (sv_id <$> data))); [exact Hids|].
  apply fmap_sublist.
  assert (S : (fun r => (cd_dataIndex r, cd_id r))
                <$> cleanData xs ys data sid pointed scope gip
              `sublist_of` imap (fun i p => (i, sv_id p)) data).
  { rewrite cleanData_omap. apply (tags_sublist xs ys sid pointed scope gip data 0). }
  apply (fmap_sublist snd) in S.
  rewrite <- list_fmap_compose, fmap_imap in S.
  rewrite (imap_ext _ (fun _ => sv_id) data) in S by reflexivity.
  pose proof (imap_const sv_id data) as C. unfold const in C.
  rewrite C in S. exact S.
Qed.

End Shape.

Section Drawing.
Context {T : ImportedTypes} {I : Imports}.

Lemma circle_attrs_r props r :
  circle_attrs props r !! "r"
  = Some (PNumber ((if isHighlighted r then 0x1.3333333333333p+0 else 1) * markerSize props)).
Proof. reflexivity. Qed.

Lemma circle_attrs_opacity props r :
  circle_attrs props r !! "opacity"
  = Some (PNumber (if isFaded r then 0x1.3333333333333p-2 else 1)).
Proof. reflexivity. Qed.

(** X11: a click on the circle of an entry calls [onItemClick] with the
    event and an identifier whose [dataIndex] is the place, in
    [series.data], of the point the circle stands for: the point whose id,
    turned into a string, is the key of the circle, however many points
    before it were left out. With no callback a click runs nothing. (The props spread on the
    circle are taken to have no [onClick] of their own.) *)
Theorem click_reports_point p r event :
  r ∈ recomputed_cleanData p ->
  interactionProps r !! "onClick" = None ->
  exists point,
    arrays (pass_heap p) (series_data (pass_series p)) !! cd_dataIndex r = Some point
    /\ key (Scatter_circle (pass_props p) r) = key_string (sv_id point)
    /\ click (Scatter_circle (pass_props p) r) event
       = match onItemClick (pass_props p) with
         | Some onItemClick_ =>
             Some (onItemClick_ event {| item_type := "scatter";
                                         seriesId := series_id (pass_series p);
                                         dataIndex := cd_dataIndex r |})
         | None => None
         end.
Proof.
  intros Hr Hfree. unfold click.
  rewrite (Scatter_circle_attr _ _ _ Hfree), circle_attrs_onClick.
  apply elem_of_cleanData in Hr as (i & point & Hpoint & _ & ->). simpl.
  exists point. repeat split; [exact Hpoint|].
  now destruct (onItemClick (pass_props p)).
Qed.

(** X12: the circle of an entry has radius 1.2 times the marker size when
    the entry is highlighted, 1 times the marker size otherwise, and
    opacity 0.3 when the entry is faded, 1 otherwise. For the entries of
    [cleanData] a circle drawn larger is drawn at opacity 1. (The props
    spread on the circle are taken to have no [r] or [opacity] of their
    own.) *)
Theorem circle_radius_and_opacity props xs ys data sid pointed scope gip r :
  r ∈ cleanData xs ys data sid pointed scope gip ->
  interactionProps r !! "r" = None ->
  interactionProps r !! "opacity" = None ->
  attrs (Scatter_circle props r) !! "r"
  = Some (PNumber ((if isHighlighted r then 0x1.3333333333333p+0 else 1) * markerSize props))
  /\ attrs (Scatter_circle props r) !! "opacity"
     = Some (PNumber (if isFaded r then 0x1.3333333333333p-2 else 1))
  /\ (isHighlighted r = true ->
      attrs (Scatter_circle props r) !! "opacity" = Some (PNumber 1)).
Proof.
  intros Hr Hradius Hopacity.
  rewrite (Scatter_circle_attr _ _ _ Hradius), (Scatter_circle_attr _ _ _ Hopacity).
  rewrite circle_attrs_r, circle_attrs_opacity. repeat split.
  intros Hh. pose proof (cleanData_not_both xs ys data sid pointed scope gip) as B.
  rewrite Forall_forall in B. destruct (B r Hr) as [_ F]. now rewrite (F Hh).
Qed.

End Drawing.

Section Cells.
Context {T : ImportedTypes} {I : Imports}.

Lemma Object_is_loc_refl a : Object_is_loc a a = true.
Proof. apply Nat.eqb_refl. Qed.

Lemma Object_is_nullable_refl a : Object_is_nullable a a = true.
Proof. destruct a; simpl; [apply Object_is_loc_refl|reflexivity]. Qed.

Lemma Object_is_Id_refl a : Object_is_Id a a = true.
Proof.
  destruct a as [s|n]; simpl.
  - now apply bool_decide_eq_true.
  - now apply FloatAxioms.Leibniz.eqb_spec.
Qed.

Lemma areHookInputsEqual_cleanData_refl d : areHookInputsEqual_cleanData d d = true.
Proof.
  unfold areHookInputsEqual_cleanData.
  now rewrite !Object_is_loc_refl, Object_is_Id_refl, Object_is_nullable_refl.
Qed.

Lemma areHookInputsEqual_cleanData_eq d d' :
  areHookInputsEqual_cleanData d d' = true -> d = d'.
Proof.
  unfold areHookInputsEqual_cleanData. rewrite !andb_true_iff.
  intros [[[[[[Hx Hy] Hdata] Hid] Hitem] Hscope] Hfn].
  apply Object_is_loc_eq in Hx, Hy, Hdata, Hscope, Hfn.
  apply Object_is_Id_eq in Hid. apply Object_is_nullable_eq in Hitem.
  destruct d, d'. simpl in *. congruence.
Qed.

(** The first [useMemo] of a pass, from any hook state. *)
Lemma highlightScope_memo_post p h o w :
  useMemo memo_highlightScope set_memo_highlightScope Object_is_nullable
    (bind (read heap) (fun heap_ =>
       new_HighlightScope
         (spread_highlightScope
            (partial_scopes heap_ <$> series_highlightScope (series (pass_props p))))))
    (series_highlightScope (series (pass_props p))) (enter p h) = (o, w) ->
  outside w = outside (enter p h)
  /\ memo_cleanData (hooks w) = memo_cleanData h
  /\ memo_highlightScope (hooks w) = Some (series_highlightScope (series (pass_props p)), o)
  /\ allocated (hooks w)
     = allocated h
       + match memo_highlightScope h with
         | Some (before, _) =>
             if Object_is_nullable (series_highlightScope (series (pass_props p))) before
             then 0 else 1
         | None => 1
         end.
Proof.
  unfold useMemo, bind, read, new_HighlightScope. simpl.
  destruct (memo_highlightScope h) as [[before o1]|] eqn:E1;
    [destruct (Object_is_nullable _ before) eqn:Hit|].
  - intros [= <- <-]. apply Object_is_nullable_eq in Hit. subst before.
    simpl. repeat split; auto.
  - intros [= <- <-]. simpl. repeat split; auto. lia.
  - intros [= <- <-]. simpl. repeat split; auto. lia.
Qed.

(** What a pass leaves in the hook state, from any hook state: the scope
    object it used under the [series.highlightScope] it was given, the
    entries it used under its dependency array, and one more scope object
    made exactly when the first cell did not answer. *)
Lemma Scatter_cleanData_post p h :
  exists o,
    memo_highlightScope (hooks (Scatter_cleanData (pass_props p) (enter p h)).2)
    = Some (series_highlightScope (series (pass_props p)), o)
    /\ memo_cleanData (hooks (Scatter_cleanData (pass_props p) (enter p h)).2)
       = Some (pass_deps p o, (Scatter_cleanData (pass_props p) (enter p h)).1)
    /\ allocated (hooks (Scatter_cleanData (pass_props p) (enter p h)).2)
       = allocated h
         + match memo_highlightScope h with
           | Some (before, _) =>
               if Object_is_nullable (series_highlightScope (series (pass_props p))) before
               then 0 else 1
           | None => 1
           end.
Proof.
  destruct (Scatter_cleanData (pass_props p) (enter p h)) as [used w'] eqn:Hrun.
  cbn [fst snd]. revert Hrun. unfold Scatter_cleanData. unfold bind at 1.
  destruct (useMemo memo_highlightScope _ _ _ _ (enter p h)) as [o w1] eqn:Hfirst.
  apply highlightScope_memo_post in Hfirst as (Hout & Hcell2 & Hcell1 & Halloc).
  unfold outside in Hout. simpl in Hout. injection Hout as Hheap Hctx Henv.
  unfold bind, useContext_InteractionContext, read, call_useInteractionItemProps, ret.
  rewrite Hctx, Henv. cbn [getter_ref getter_call]. fold (pass_deps p o).
  unfold useMemo. rewrite Hcell2. rewrite <- Halloc.
  destruct (memo_cleanData h) as [[d cd]|] eqn:E2;
    [destruct (areHookInputsEqual_cleanData (pass_deps p o) d) eqn:Hit|].
  - apply areHookInputsEqual_cleanData_eq in Hit. subst d.
    intros [= <- <-]. exists o. auto.
  - intros [= <- <-]. exists o. simpl. auto.
  - intros [= <- <-]. exists o. simpl. auto.
Qed.

(** A pass that finds both cells filled for the objects it is given
    answers from them and writes nothing. *)
Lemma Scatter_cleanData_hit q h o used :
  memo_highlightScope h = Some (series_highlightScope (series (pass_props q)), o) ->
  memo_cleanData h = Some (pass_deps q o, used) ->
  Scatter_cleanData (pass_props q) (enter q h) = (used, enter q h).
Proof.
  intros E1 E2.
  unfold Scatter_cleanData, bind, useContext_InteractionContext, read,
    call_useInteractionItemProps, ret, useMemo. simpl.
  rewrite E1, Object_is_nullable_refl. simpl. fold (pass_deps q o).
  now rewrite E2, areHookInputsEqual_cleanData_refl.
Qed.

Lemma pass_deps_same_identities p q o : same_identities p q -> pass_deps p o = pass_deps q o.
Proof.
  intros S. unfold pass_deps.
  rewrite (identical_xScale _ _ S), (identical_yScale _ _ S), (identical_data _ _ S),
    (identical_series_id _ _ S), (identical_item _ _ S).
  f_equal. apply (identical_getInteractionItemProps _ _ S).
Qed.

(** X13: a pass given the same objects as the pass before it (same scales,
    same data array, same series id and highlight scope, same item, same
    hook function) uses the very entries the pass before used and leaves
    the hook state as it found it. The cells are compared by identity:
    what the objects hold at the time of the second pass plays no part. *)
Theorem same_identities_same_entries h p q :
  same_identities p q ->
  let first := Scatter_run (pass_props p) (enter p h) in
  let second := Scatter_run (pass_props q) (enter q (hooks first.2)) in
  second.1.1 = first.1.1 /\ hooks second.2 = hooks first.2.
Proof.
  intros S first second. subst first second. unfold Scatter_run.
  destruct (Scatter_cleanData_post p h) as (o & E1 & E2 & _).
  destruct (Scatter_cleanData (pass_props p) (enter p h)) as [used w1]. simpl in *.
  rewrite (identical_highlightScope _ _ S) in E1.
  rewrite (pass_deps_same_identities _ _ _ S) in E2.
  rewrite (Scatter_cleanData_hit q (hooks w1) o used E1 E2). split; reflexivity.
Qed.

Lemma hooks_after_allocated passes : forall h,
  allocated (hooks_after h passes)
  = allocated h + highlightScope_changes (fst <$> memo_highlightScope h) passes.
Proof.
  induction passes as [|p later IH]; intros h; simpl; [lia|].
  rewrite IH. unfold Scatter_run.
  destruct (Scatter_cleanData_post p h) as (o & E1 & _ & Ha).
  destruct (Scatter_cleanData (pass_props p) (enter p h)) as [used w1]. simpl in *.
  rewrite E1, Ha. simpl. destruct (memo_highlightScope h) as [[before o1]|]; simpl; lia.
Qed.

(** X14: an instance makes a new highlight scope object in its first
    pass, and afterwards only in the passes given a [series.highlightScope]
    that is not the object the pass before was given: after any sequence of
    passes from mount it has made as many scope objects as there were such
    passes. *)
Theorem highlightScope_objects_made passes :
  allocated (hooks_after mount passes) = highlightScope_changes None passes
  /\ allocated (hooks_after mount passes) <= length passes.
Proof.
  assert (E : allocated (hooks_after mount passes) = highlightScope_changes None passes).
  { rewrite hooks_after_allocated. reflexivity. }
  split; [exact E|]. rewrite E. clear E. generalize (@None (option loc)).
  induction passes as [|p later IH]; intros previous; simpl; [lia|].
  specialize (IH (Some (series_highlightScope (series (pass_props p))))).
  destruct previous as [before|]; [destruct (Object_is_nullable _ before)|]; lia.
Qed.

(** X15: the first pass of an instance uses the entries recomputed from
    what it is given, with nothing assumed of the objects: the memo cells
    are empty at mount. *)
Theorem first_pass_recomputes p :
  renders mount [p] = [(recomputed_cleanData p, recomputed_output p)].
Proof.
  apply (renders_recomputed [p]). intros q p' Hq Hp'.
  apply list_elem_of_singleton in Hq as ->. apply list_elem_of_singleton in Hp' as ->.
  constructor; reflexivity.
Qed.

End Cells.

(** * The component at work *)

Section Examples.
#[local] Existing Instance Demo.types.
#[local] Existing Instance Demo.imports.

(** Four points; the second falls outside the x range, the third is the
    one pointed at, the two others fade. *)
Example demo_cleanData_summary :
  Demo.summary <$> Demo.demo_cleanData
  = [ (10%float, 90%float, IdString "a", 0, false, true);
      (50%float, 50%float, IdNumber 3, 2, true, false);
      (0%float, 0%float, IdString "d", 3, false, true) ].
Proof. reflexivity. Qed.

Example demo_transform :
  (fun c => attrs c !! "transform")
    <$> (Scatter_circle (Demo.demo_props None) <$> Demo.demo_cleanData)
  = [ Some (PString "translate(10, 90)");
      Some (PString "translate(50, 50)");
      Some (PString "translate(0, 0)") ].
Proof. reflexivity. Qed.

(** Bounds count as inside, NaN never does, and an empty range keeps
    nothing. *)
Example isInRange_bounds :
  isInRange 0 100 0 100 0 100 = true
  /\ isInRange 0 100 0 100 nan 50 = false
  /\ isInRange (Math.min []) (Math.max []) 0 100 50 50 = false
  /\ Math.min [100; 0]%float = 0%float
  /\ Math.max [100; 0]%float = 100%float.
Proof. repeat split; reflexivity. Qed.

(** The second pass of [Demo.demo_passes] answers from both memo cells: it
    leaves the hook state of the first pass as it is. *)
Example second_pass_hits :
  let after_first := hooks (Scatter_run (pass_props (Demo.demo_pass (Some 9) 30))
                              (enter (Demo.demo_pass (Some 9) 30) mount)).2 in
  allocated after_first = 1
  /\ hooks (Scatter_run (pass_props (Demo.demo_pass (Some 9) 30))
              (enter (Demo.demo_pass (Some 9) 30) after_first)).2 = after_first.
Proof. split; reflexivity. Qed.

(** After the array of points was emptied in place, a pass given the same
    objects still draws the three circles of the pass before, where a
    recomputation would draw none. *)
Example mutated_pass_entries :
  let first := Scatter_run (pass_props (Demo.demo_pass (Some 9) 30))
                 (enter (Demo.demo_pass (Some 9) 30) mount) in
  let second := Scatter_run (pass_props Demo.mutated_pass)
                  (enter Demo.mutated_pass (hooks first.2)) in
  length second.1.1 = 3 /\ recomputed_cleanData Demo.mutated_pass = [].
Proof. split; reflexivity. Qed.

(** The number 3 and the string "3" are two ids and one key. *)
Example number_and_digits_share_a_key :
  IdNumber 3 <> IdString "3" /\ key_string (IdNumber 3) = key_string (IdString "3").
Proof. split; [discriminate|reflexivity]. Qed.

(** After the highlight scope of the series was changed in place, the next
    pass still fades the points around the one pointed at, as the old scope
    asks, where the scope now held asks for no fading. *)
Example stale_entries_summary :
  (fun r => (cd_dataIndex r, isHighlighted r, isFaded r)) <$> Demo.stale_entries
  = [ (0, false, true); (2, true, false); (3, false, true) ]
  /\ (fun r => (cd_dataIndex r, isHighlighted r, isFaded r))
       <$> recomputed_cleanData Demo.rescoped_pass
     = [ (0, false, false); (2, false, false); (3, false, false) ].
Proof. split; reflexivity. Qed.

Lemma demo_passes_coherent : coherent Demo.demo_passes.
Proof.
  intros q p Hq Hp. unfold Demo.demo_passes in *.
  repeat (apply elem_of_cons in Hq as [->|Hq]);
    try (now apply elem_of_nil in Hq);
    repeat (apply elem_of_cons in Hp as [->|Hp]);
    try (now apply elem_of_nil in Hp);
    constructor; simpl; intros; try reflexivity; try congruence.
Qed.

Lemma other_pass_coherent : coherent [Demo.other_pass].
Proof.
  intros q p Hq Hp.
  apply list_elem_of_singleton in Hq as ->. apply list_elem_of_singleton in Hp as ->.
  constructor; reflexivity.
Qed.

Lemma demo_same_inputs : same_inputs (Demo.demo_pass (Some 9) 30) Demo.other_pass.
Proof. constructor; reflexivity. Qed.

End Examples.

(** * The theorems at the instance *)

Section Witnesses.
#[local] Existing Instance Demo.types.
#[local] Existing Instance Demo.imports.

Lemma cleanData_entry_iff_in_range_witness :
  Demo.points !! 1 = Some {| sv_x := 20; sv_y := 5; sv_id := IdString "b" |}
  /\ ((exists r, r ∈ cleanData
                      Demo.xAxis Demo.yAxis Demo.points (IdString "s1") None
                      (spread_highlightScope None) (fun _ => ∅)
                  /\ cd_dataIndex r = 1)
       <-> (js_le (Math.min [0; 100]%float) 200 = true
            /\ js_le 200 (Math.max [0; 100]%float) = true
            /\ js_le (Math.min [100; 0]%float) 50 = true
            /\ js_le 50 (Math.max [100; 0]%float) = true)).
Proof.
  split; [reflexivity|].
  apply (cleanData_entry_iff_in_range (T := Demo.types) (I := Demo.imports)
           Demo.xAxis Demo.yAxis Demo.points (IdString "s1") None
           (spread_highlightScope None) (fun _ => ∅) 1
           {| sv_x := 20; sv_y := 5; sv_id := IdString "b" |}).
  reflexivity.
Defined.



Lemma memoization_is_transparent_witness :
  renders mount Demo.demo_passes
  = (fun p => (recomputed_cleanData p,
               recomputed_output p)) <$> Demo.demo_passes.
Proof.
  apply (memoization_is_transparent (T := Demo.types) (I := Demo.imports)).
  apply demo_passes_coherent.
Defined.

Lemma visual_state_is_determined_witness :
  recomputed_cleanData (Demo.demo_pass (Some 9) 30)
  = recomputed_cleanData Demo.other_pass.
Proof.
  apply (visual_state_is_determined (T := Demo.types) (I := Demo.imports)
           Demo.demo_passes [Demo.other_pass] 1 0
           (Demo.demo_pass (Some 9) 30) Demo.other_pass
           (recomputed_cleanData (Demo.demo_pass (Some 9) 30),
            recomputed_output (Demo.demo_pass (Some 9) 30))
           (recomputed_cleanData Demo.other_pass,
            recomputed_output Demo.other_pass)).
  - apply demo_passes_coherent.
  - apply other_pass_coherent.
  - reflexivity.
  - reflexivity.
  - apply demo_same_inputs.
  - reflexivity.
  - reflexivity.
Defined.


Lemma cleanData_entry_iff_between_witness :
  (exists r, r ∈ cleanData Demo.xAxis Demo.yAxis Demo.points (IdString "s1") None
                   (spread_highlightScope None) (fun _ => ∅)
             /\ cd_dataIndex r = 1)
  <-> ((exists lo hi, lo ∈ [0; 100]%float /\ hi ∈ [0; 100]%float
                      /\ js_le lo 200 = true /\ js_le 200 hi = true)
       /\ (exists lo hi, lo ∈ [100; 0]%float /\ hi ∈ [100; 0]%float
                         /\ js_le lo 50 = true /\ js_le 50 hi = true)).
Proof.
  apply (cleanData_entry_iff_between (T := Demo.types) (I := Demo.imports)
           Demo.xAxis Demo.yAxis Demo.points (IdString "s1") None
           (spread_highlightScope None) (fun _ => ∅) 1
           {| sv_x := 20; sv_y := 5; sv_id := IdString "b" |}).
  - reflexivity.
  - repeat constructor.
  - repeat constructor.
Defined.

Lemma cleanData_empty_range_witness :
  cleanData Demo.no_pixels Demo.yAxis Demo.points (IdString "s1") None
    (spread_highlightScope None) (fun _ => ∅) = [].
Proof.
  apply (cleanData_empty_range (T := Demo.types) (I := Demo.imports)).
  left. reflexivity.
Defined.

Lemma cleanData_NaN_range_witness :
  cleanData Demo.xAxis Demo.nan_pixels Demo.points (IdString "s1") None
    (spread_highlightScope None) (fun _ => ∅) = [].
Proof.
  apply (cleanData_NaN_range (T := Demo.types) (I := Demo.imports)).
  right. apply Exists_cons_tl, Exists_cons_hd. reflexivity.
Defined.

Lemma cleanData_NaN_position_witness :
  ~ exists r, r ∈ cleanData Demo.xAxis Demo.yAxis [Demo.lost_point] (IdString "s1") None
                    (spread_highlightScope None) (fun _ => ∅)
              /\ cd_dataIndex r = 0.
Proof.
  apply (cleanData_NaN_position (T := Demo.types) (I := Demo.imports)
           Demo.xAxis Demo.yAxis [Demo.lost_point] (IdString "s1") None
           (spread_highlightScope None) (fun _ => ∅) 0 Demo.lost_point).
  - reflexivity.
  - left. reflexivity.
Defined.

Lemma cleanData_same_range_values_witness :
  cleanData Demo.xAxis Demo.yAxis Demo.points (IdString "s1") None
    (spread_highlightScope None) (fun _ => ∅)
  = cleanData Demo.xAxis_reversed Demo.yAxis Demo.points (IdString "s1") None
      (spread_highlightScope None) (fun _ => ∅).
Proof.
  apply (cleanData_same_range_values (T := Demo.types) (I := Demo.imports)).
  - reflexivity.
  - reflexivity.
  - intros m. simpl. rewrite !elem_of_cons, !elem_of_nil. tauto.
  - intros m. reflexivity.
Defined.

Lemma cleanData_all_in_range_witness :
  let data := [ {| sv_x := 1; sv_y := 1; sv_id := IdString "a" |};
                {| sv_x := 5; sv_y := 5; sv_id := IdNumber 3 |} ] in
  cleanData Demo.xAxis Demo.yAxis data (IdString "s1") None
    (spread_highlightScope None) (fun _ => ∅)
  = imap (entry_of Demo.xAxis Demo.yAxis (IdString "s1") None
            (spread_highlightScope None) (fun _ => ∅)) data
  /\ length (cleanData Demo.xAxis Demo.yAxis data (IdString "s1") None
               (spread_highlightScope None) (fun _ => ∅)) = 2
  /\ cd_dataIndex <$> cleanData Demo.xAxis Demo.yAxis data (IdString "s1") None
                        (spread_highlightScope None) (fun _ => ∅) = [0; 1].
Proof.
  intros data.
  apply (cleanData_all_in_range (T := Demo.types) (I := Demo.imports)
           Demo.xAxis Demo.yAxis (IdString "s1") None
           (spread_highlightScope None) (fun _ => ∅) data).
  repeat constructor.
Defined.

Lemma Scatter_return_keys_NoDup_witness :
  key <$> children (Scatter_return (Demo.demo_props None) Demo.demo_cleanData)
  = key_string <$> (cd_id <$> Demo.demo_cleanData)
  /\ NoDup (key <$> children (Scatter_return (Demo.demo_props None) Demo.demo_cleanData)).
Proof.
  apply (Scatter_return_keys_NoDup (T := Demo.types) (I := Demo.imports)
           Demo.xAxis Demo.yAxis (IdString "s1") (Some Demo.pointed)
           (pass_highlightScope (Demo.demo_pass (Some 9) 30))
           (pass_getInteractionItemProps (Demo.demo_pass (Some 9) 30))
           (Demo.demo_props None) Demo.points).
  change (NoDup ["a"; "b"; "3"; "d"]).
  repeat constructor; rewrite ?elem_of_cons, ?elem_of_nil; intuition discriminate.
Defined.

Lemma click_reports_point_witness :
  exists point,
    Demo.points !! 2 = Some point
    /\ key (Scatter_circle (Demo.demo_props (Some Demo.report)) Demo.demo_third)
       = key_string (sv_id point)
    /\ click (Scatter_circle (Demo.demo_props (Some Demo.report)) Demo.demo_third) 7
       = Some (Demo.itemClick 7 {| item_type := "scatter";
                                   seriesId := IdString "s1";
                                   dataIndex := 2 |}).
Proof.
  apply (click_reports_point (T := Demo.types) (I := Demo.imports)
           (Demo.demo_pass (Some 9) 30) Demo.demo_third 7).
  - apply list_elem_of_lookup_2 with 1. reflexivity.
  - reflexivity.
Defined.

Lemma circle_radius_and_opacity_witness :
  let c := Scatter_circle (Demo.demo_props None) Demo.demo_third in
  attrs c !! "r" = Some (PNumber (0x1.3333333333333p+0 * 4))
  /\ attrs c !! "opacity" = Some (PNumber 1)
  /\ (true = true -> attrs c !! "opacity" = Some (PNumber 1)).
Proof.
  intros c.
  apply (circle_radius_and_opacity (T := Demo.types) (I := Demo.imports)
           (Demo.demo_props None) Demo.xAxis Demo.yAxis Demo.points (IdString "s1")
           (Some Demo.pointed)
           (pass_highlightScope (Demo.demo_pass (Some 9) 30))
           (pass_getInteractionItemProps (Demo.demo_pass (Some 9) 30))
           Demo.demo_third).
  - apply list_elem_of_lookup_2 with 1. reflexivity.
  - reflexivity.
  - reflexivity.
Defined.

Lemma same_identities_same_entries_witness :
  let first := Scatter_run (pass_props (Demo.demo_pass (Some 9) 30))
                 (enter (Demo.demo_pass (Some 9) 30) mount) in
  let second := Scatter_run (pass_props Demo.mutated_pass)
                  (enter Demo.mutated_pass (hooks first.2)) in
  second.1.1 = first.1.1 /\ hooks second.2 = hooks first.2.
Proof.
  apply (same_identities_same_entries (T := Demo.types) (I := Demo.imports)
           mount (Demo.demo_pass (Some 9) 30) Demo.mutated_pass).
  constructor; reflexivity.
Defined.

(** * Where memoization shows

    The two memo cells compare their dependencies by identity. A sequence
    of two passes of one instance: [Demo.demo_pass (Some 9) 30], then
    [Demo.rescoped_pass], given the same [series.highlightScope] object
    after it was changed in place. The first cell answers with the scope
    merged in the first pass. *)

Lemma stale_entries_used :
  renders mount [Demo.demo_pass (Some 9) 30; Demo.rescoped_pass] !! 1
  = Some (Demo.stale_entries,
          Scatter_return (pass_props Demo.rescoped_pass) Demo.stale_entries).
Proof. reflexivity. Qed.

Lemma stale_entries_not_recomputed :
  Demo.stale_entries <> recomputed_cleanData Demo.rescoped_pass.
Proof.
  intros E. apply (f_equal (fmap isFaded)) in E. vm_compute in E. discriminate E.
Qed.

(** C7, counterexample to the claim as worded: the second of these two passes does not use
    the entries recomputed from what it is given. *)
Lemma memoization_serves_stale_entries :
  renders mount [Demo.demo_pass (Some 9) 30; Demo.rescoped_pass]
  <> (fun p => (recomputed_cleanData p, recomputed_output p))
       <$> [Demo.demo_pass (Some 9) 30; Demo.rescoped_pass].
Proof.
  intros E. apply (f_equal (fun l => fst <$> l !! 1)) in E.
  rewrite stale_entries_used in E. simpl in E. injection E as E.
  now apply stale_entries_not_recomputed.
Qed.

(** C3, counterexample to the claim as worded: one and the same pass, so with equal
    scales, series and interaction context, uses other entries as the
    second pass of an instance than as its first. *)
Lemma equal_inputs_unequal_entries :
  same_inputs Demo.rescoped_pass Demo.rescoped_pass
  /\ renders mount [Demo.demo_pass (Some 9) 30; Demo.rescoped_pass] !! 1
     = Some (Demo.stale_entries,
             Scatter_return (pass_props Demo.rescoped_pass) Demo.stale_entries)
  /\ renders mount [Demo.rescoped_pass] !! 0
     = Some (recomputed_cleanData Demo.rescoped_pass,
             recomputed_output Demo.rescoped_pass)
  /\ Demo.stale_entries <> recomputed_cleanData Demo.rescoped_pass.
Proof.
  split; [constructor; reflexivity|]. split; [exact stale_entries_used|].
  split; [reflexivity|]. exact stale_entries_not_recomputed.
Qed.


End Witnesses.
